(** * heudiconv/heuristics/bids_longitudinal.py — shallow embedding

    The heuristic module is embedded function by function.  Python
    exceptions are explicit ([result]); the dictionaries [info] and
    [run_numbers] are insertion-ordered association lists, because the
    cleanup pass iterates over them in insertion order while renaming keys.

    Strings are sequences of 8-bit characters; [str.lower] is modelled on the
    ASCII range, which is what DICOM header text uses. *)

From Stdlib Require Import Bool Arith ZArith Lia List Permutation Sorted.
From Stdlib Require Import Strings.Ascii Strings.String Numbers.DecimalString.
Import ListNotations.

Open Scope list_scope.
Open Scope string_scope.

(* ================================================================== *)
(** ** Exceptions *)

Inductive exn : Type :=
| NameError
| IndexError
| KeyError
| ValueError.

Inductive result (A : Type) : Type :=
| OK (a : A)
| Raise (e : exn).

Arguments OK {A} a.
Arguments Raise {A} e.

Definition bind {A B : Type} (m : result A) (f : A -> result B) : result B :=
  match m with
  | OK a => f a
  | Raise e => Raise e
  end.

Notation "x <- m ;; k" := (bind m (fun x => k))
  (at level 61, m at next level, right associativity).
Notation "' p <- m ;; k" := (bind m (fun x => match x with p => k end))
  (at level 61, p pattern, m at next level, right associativity).

Definition returns {A : Type} (m : result A) : Prop := exists a, m = OK a.
Definition raises {A : Type} (m : result A) : Prop := exists e, m = Raise e.

(* ================================================================== *)
(** ** Python string operations *)

Module PyStr.

(** [c.lower()] for one character, ASCII range. *)
Definition lower_ascii (c : ascii) : ascii :=
  let n := nat_of_ascii c in
  if (65 <=? n)%nat && (n <=? 90)%nat then ascii_of_nat (n + 32) else c.

(** [s.lower()] *)
Fixpoint lower (s : string) : string :=
  match s with
  | EmptyString => EmptyString
  | String c r => String (lower_ascii c) (lower r)
  end.

(** [needle in hay] for two strings. *)
Fixpoint contains (needle hay : string) : bool :=
  if prefix needle hay then true
  else match hay with
       | EmptyString => false
       | String _ r => contains needle r
       end.

(** [s.replace(old, new)] for a non-empty [old]: occurrences are found
    left to right and do not overlap.  [skip] counts the characters of the
    occurrence just matched that are still to be dropped. *)
Fixpoint replace_from (old new : string) (skip : nat) (s : string) : string :=
  match s with
  | EmptyString => EmptyString
  | String c r =>
      match skip with
      | S n => replace_from old new n r
      | O =>
          if prefix old s
          then new ++ replace_from old new (length old - 1) r
          else String c (replace_from old new 0 r)
      end
  end.

Definition replace (old new s : string) : string := replace_from old new 0 s.

(** [s.split(sep)] for a non-empty [sep]; [cur] is the piece being read. *)
Fixpoint split_from (sep : string) (skip : nat) (cur : string) (s : string)
  : list string :=
  match s with
  | EmptyString => [cur]
  | String c r =>
      match skip with
      | S n => split_from sep n cur r
      | O =>
          if prefix sep s
          then cur :: split_from sep (length sep - 1) EmptyString r
          else split_from sep 0 (cur ++ String c EmptyString) r
      end
  end.

Definition split (sep s : string) : list string :=
  split_from sep 0 EmptyString s.

(** [s.endswith(suffix)] *)
Definition endswith (suffix s : string) : bool :=
  (length suffix <=? length s)%nat
  && (substring (length s - length suffix) (length suffix) s =? suffix).

(** [str(n)] for an int. *)
Definition str_of_int (n : Z) : string := NilZero.string_of_int (Z.to_int n).

(** ['%02d' % n]: at least two characters, zero padded after the sign. *)
Definition fmt_02d (n : Z) : string :=
  if ((0 <=? n) && (n <? 10))%Z then "0" ++ str_of_int n else str_of_int n.

(** [l[i]] on a list, for a non-negative literal index. *)
Definition index {A : Type} (l : list A) (i : nat) : result A :=
  match nth_error l i with
  | Some x => OK x
  | None => Raise IndexError
  end.

(** Truth value of a string. *)
Definition nonempty (s : string) : bool :=
  match s with
  | EmptyString => false
  | String _ _ => true
  end.

(** A character BIDS accepts in a label: a letter or a digit. *)
Definition alnum_ascii (c : ascii) : bool :=
  let n := nat_of_ascii c in
  ((48 <=? n) && (n <=? 57) || (65 <=? n) && (n <=? 90)
   || (97 <=? n) && (n <=? 122))%nat.

Fixpoint all_chars (p : ascii -> bool) (s : string) : bool :=
  match s with
  | EmptyString => true
  | String c r => p c && all_chars p r
  end.

(** Non-empty and made of letters and digits only. *)
Definition alnum_label (s : string) : bool :=
  nonempty s && all_chars alnum_ascii s.

End PyStr.

(* ================================================================== *)
(** ** extract_task_name *)

Definition known_tasks : list string :=
  [ "rest"; "face"; "conflict"; "gamble"; "fix"; "films"; "inscapes";
    "lo bold"; "loc bold"; "mt bold"; "ret bold" ].

(** The [for task_name in known_tasks] loop.  A match stops the loop with the
    label cut at [' bold']; an iteration without a match leaves
    [task_name = ''], which is therefore the value after the last one. *)
Fixpoint scan_known_tasks (tasks : list string) (prot_name : string)
  : result string :=
  match tasks with
  | [] => OK ""
  | task_name :: rest =>
      if PyStr.contains task_name prot_name
      then PyStr.index (PyStr.split " bold" task_name) 0
      else scan_known_tasks rest prot_name
  end.

Definition extract_task_name (prot_name : string) : result string :=
  let prot_name := PyStr.lower prot_name in
  task_name <- scan_known_tasks known_tasks prot_name ;;
  (* ad hoc fixes *)
  let task_name := if task_name =? "lo" then "loc" else task_name in
  if task_name =? "" then
    if PyStr.contains "task" prot_name then
      task_name <- PyStr.index (PyStr.split "task" prot_name) 1 ;;
      (* task_name[0] *)
      task_name <-
        match task_name with
        | EmptyString => Raise IndexError
        | String c r =>
            if (c =? "-")%char || (c =? "_")%char then OK r else OK task_name
        end ;;
      task_name <- PyStr.index (PyStr.split "_" task_name) 0 ;;
      task_name <- PyStr.index (PyStr.split "-" task_name) 0 ;;
      OK (PyStr.replace " " "" task_name)
    else OK "TASK"
  else OK task_name.

(* ================================================================== *)
(** ** Dictionaries

    A Python [dict] keeps its keys in insertion order: assigning to a key
    that is present keeps its position, assigning to a new key puts it last,
    and [pop] takes the entry out. *)

Section Dict.
Context {K V : Type}.
Variable K_eq_dec : forall x y : K, {x = y} + {x <> y}.

Definition dict : Type := list (K * V).

Definition keys (d : dict) : list K := map fst d.

(** [d.get(k)] *)
Fixpoint get (d : dict) (k : K) : option V :=
  match d with
  | [] => None
  | (k', v) :: r => if K_eq_dec k k' then Some v else get r k
  end.

(** [k in d] *)
Definition mem (d : dict) (k : K) : bool :=
  match get d k with Some _ => true | None => false end.

(** [d[k]] *)
Definition getitem (d : dict) (k : K) : result V :=
  match get d k with
  | Some v => OK v
  | None => Raise KeyError
  end.

(** [d[k] = v] *)
Fixpoint setitem (d : dict) (k : K) (v : V) : dict :=
  match d with
  | [] => [(k, v)]
  | (k', v') :: r =>
      if K_eq_dec k k' then (k', v) :: r else (k', v') :: setitem r k v
  end.

(** The dictionary without the entry of [k]. *)
Fixpoint remove (d : dict) (k : K) : dict :=
  match d with
  | [] => []
  | (k', v') :: r =>
      if K_eq_dec k k' then remove r k else (k', v') :: remove r k
  end.

(** [d.pop(k)]: the value and the dictionary left. *)
Definition pop (d : dict) (k : K) : result (V * dict) :=
  match get d k with
  | Some v => OK (v, remove d k)
  | None => Raise KeyError
  end.

(** Two dictionaries are equal in Python when they hold the same value
    under every key, whatever the insertion order. *)
Definition dict_equal (d1 d2 : dict) : Prop :=
  forall k, get d1 k = get d2 k.

End Dict.

Arguments dict K V : clear implicits.

(* ================================================================== *)
(** ** Data model *)

(** One row of [dicominfo.tsv].  The date, the time and the series UID may be
    [None]; [unread] stands for the columns this module never looks at, which
    still take part in the equality of two rows. *)
Record SeriesRecord : Type := mkSeries {
  series_id : string;
  date : option string;
  time : option string;
  series_uid : option string;
  protocol_name : string;
  series_description : string;
  sequence_name : string;
  image_type : list string;
  dim4 : Z;
  unread : list string
}.

Definition option_string_dec (x y : option string) : {x = y} + {x <> y}.
Proof. decide equality. apply string_dec. Defined.

Definition list_string_dec (x y : list string) : {x = y} + {x <> y}.
Proof. apply list_eq_dec. apply string_dec. Defined.

Definition SeriesRecord_eq_dec (x y : SeriesRecord) : {x = y} + {x <> y}.
Proof.
  decide equality;
    first [ apply string_dec | apply option_string_dec
          | apply list_string_dec | apply Z.eq_dec ].
Defined.

(** The tuple [(template, outtype, annotation_classes)] of [create_key]. *)
Record Key : Type := mkKey {
  template : string;
  outtype : list string;
  annotation_classes : option (list string)
}.

Definition Key_eq_dec (x y : Key) : {x = y} + {x <> y}.
Proof.
  decide equality.
  - decide equality. apply list_string_dec.
  - apply list_string_dec.
  - apply string_dec.
Defined.

(** [{'item': series_id}] or [{'item': series_id, 'acq': acq}] *)
Record Assignment : Type := mkAssignment {
  item : string;
  acq : option string
}.

Definition Info : Type := dict Key (list Assignment).

Abbreviation iget := (get Key_eq_dec).
Abbreviation imem := (mem Key_eq_dec).
Abbreviation igetitem := (getitem Key_eq_dec).
Abbreviation isetitem := (setitem Key_eq_dec).
Abbreviation iremove := (remove Key_eq_dec).
Abbreviation ipop := (pop Key_eq_dec).

(* ================================================================== *)
(** ** create_key *)

(** [os.path.join(a, b)] on POSIX. *)
Definition path_join2 (a b : string) : string :=
  if prefix "/" b then b
  else if (a =? "") || PyStr.endswith "/" a then a ++ b
  else a ++ "/" ++ b.

Definition path_join (a : string) (ps : list string) : string :=
  fold_left path_join2 ps a.

Definition default_outtype : list string := ["nii.gz"; "dicom"].

Definition create_key_full (subdir file_suffix : string) (outtype : list string)
    (annotation_classes : option (list string)) (prefix : string)
  : result Key :=
  if negb (PyStr.nonempty subdir) then Raise ValueError
  else
    let template :=
      path_join prefix
        [ "{bids_subject_session_dir}"; subdir;
          "{bids_subject_session_prefix}_" ++ file_suffix ] in
    OK (mkKey template outtype annotation_classes).

(** [create_key(subdir, file_suffix)] with the default arguments. *)
Definition create_key (subdir file_suffix : string) : result Key :=
  create_key_full subdir file_suffix default_outtype None "".

(** [create_key(subdir, file_suffix, outtype=('dicom',))] *)
Definition create_key_dicom (subdir file_suffix : string) : result Key :=
  create_key_full subdir file_suffix ["dicom"] None "".

(* ================================================================== *)
(** ** add_series_to_info_dict *)

(** What a caller passes as [mykey]: a [create_key] tuple, or the empty
    string the function tests for. *)
Inductive KeyArg : Type :=
| KEmptyStr
| KTuple (k : Key).

(** What the call evaluates to: [None] when the body runs to its end, the
    class object [Exception] from [return Exception]. *)
Inductive RetVal : Type :=
| RetNone
| RetExceptionClass.

Definition new_entry (series_id acq : string) : Assignment :=
  if acq =? "" then mkAssignment series_id None
  else mkAssignment series_id (Some acq).

(** [info] is [None] or a dictionary, which the call updates in place; the
    second component is the dictionary after the call. *)
Definition add_series_to_info_dict (series_id : string) (mykey : KeyArg)
    (info : option Info) (acq : string) : result (RetVal * option Info) :=
  match info, mykey with
  | None, _ => OK (RetExceptionClass, info)
  | Some _, KEmptyStr => OK (RetExceptionClass, info)
  | Some d, KTuple k =>
      match iget d k with
      | Some l => OK (RetNone, Some (isetitem d k (l ++ [new_entry series_id acq])%list))
      | None => OK (RetNone, Some (isetitem d k [new_entry series_id acq]))
      end
  end.

(* ================================================================== *)
(** ** clean_up_unneeded_tags_from_info *)

Definition RUN_PLACEHOLDER : string := "_run-{item:02d}".
Definition RUN_01 : string := "_run-01".
Definition RUN_02 : string := "_run-02".

(** [new_k = list(k); new_k[0] = t; tuple(new_k)] *)
Definition with_template (k : Key) (t : string) : Key :=
  mkKey t (outtype k) (annotation_classes k).

(** [info[new_k] = info.pop(k)] *)
Definition rename_key (info : Info) (k new_k : Key) : result Info :=
  '(v, info') <- ipop info k ;;
  OK (isetitem info' new_k v).

(** [[kk[0] for kk in info.keys()]] *)
Definition templates (info : Info) : list string :=
  map template (keys info).

Definition in_strings (s : string) (l : list string) : bool :=
  existsb (String.eqb s) l.

(** The body of the [for k in orig_keys] loop. *)
Definition clean_up_key (k : Key) (info : Info) : result Info :=
  v <- igetitem info k ;;
  if (List.length v =? 1)%nat && PyStr.contains RUN_PLACEHOLDER (template k) then
    rename_key info k
      (with_template k (PyStr.replace RUN_PLACEHOLDER "" (template k)))
  else if PyStr.contains RUN_01 (template k) then
    let run2 := PyStr.replace RUN_01 RUN_02 (template k) in
    if negb (in_strings run2 (templates info)) then
      rename_key info k (with_template k (PyStr.replace RUN_01 "" (template k)))
    else OK info
  else OK info.

Fixpoint clean_up_loop (orig_keys : list Key) (info : Info) : result Info :=
  match orig_keys with
  | [] => OK info
  | k :: rest =>
      info' <- clean_up_key k info ;;
      clean_up_loop rest info'
  end.

Definition clean_up_unneeded_tags_from_info (info : Info) : result Info :=
  let orig_keys := keys info in
  clean_up_loop orig_keys info.

(* ================================================================== *)
(** ** sort_seqinfo_by_series_date_time *)

(** Truth value of a field that is [None] or a string. *)
Definition truthy (o : option string) : bool :=
  match o with
  | Some s => PyStr.nonempty s
  | None => false
  end.

(** [s.date and s.time] *)
Definition has_date_time (s : SeriesRecord) : bool :=
  truthy (date s) && truthy (time s).

(** [s.date + s.time]; the source evaluates it only behind
    [s.date and s.time], where both are strings. *)
Definition date_time (s : SeriesRecord) : string :=
  match date s, time s with
  | Some d, Some t => d ++ t
  | _, _ => ""
  end.

Fixpoint insert_sorted (x : string) (l : list string) : list string :=
  match l with
  | [] => [x]
  | y :: r => if String.leb x y then x :: l else y :: insert_sorted x r
  end.

(** [sorted(l)] for a list of strings. *)
Definition sorted (l : list string) : list string :=
  fold_right insert_sorted [] l.

(** [sorted(set(l))] *)
Definition sorted_set (l : list string) : list string :=
  sorted (nodup string_dec l).

(** [ss.series_uid == sid] *)
Definition uid_is (sid : string) (ss : SeriesRecord) : bool :=
  match series_uid ss with
  | Some u => u =? sid
  | None => false
  end.

(** [if ss not in sortedSeqinfo: sortedSeqinfo.append(ss)] *)
Definition append_if_absent (sortedSeqinfo : list SeriesRecord)
    (ss : SeriesRecord) : list SeriesRecord :=
  if in_dec SeriesRecord_eq_dec ss sortedSeqinfo then sortedSeqinfo
  else (sortedSeqinfo ++ [ss])%list.

(** [[ss for ss in seqinfo if ss.date and ss.time and ss.date + ss.time == dt]] *)
Definition series_at (seqinfo : list SeriesRecord) (dt : string)
  : list SeriesRecord :=
  filter (fun ss => has_date_time ss && (date_time ss =? dt)) seqinfo.

(** [[s.series_uid for s in dTseries if s.series_uid]] *)
Fixpoint uids_of (dTseries : list SeriesRecord) : list string :=
  match dTseries with
  | [] => []
  | s :: r =>
      match series_uid s with
      | Some u => if PyStr.nonempty u then u :: uids_of r else uids_of r
      | None => uids_of r
      end
  end.

(** The [for sid in sorted(...)] loop with its inner loop over [dTseries]. *)
Definition append_by_uid (dTseries : list SeriesRecord)
    (sortedSeqinfo : list SeriesRecord) (sid : string) : list SeriesRecord :=
  (sortedSeqinfo ++ filter (uid_is sid) dTseries)%list.

(** The body of the [for dt in sorted(dateTimes)] loop. *)
Definition append_date_time (seqinfo : list SeriesRecord)
    (sortedSeqinfo : list SeriesRecord) (dt : string) : list SeriesRecord :=
  let dTseries := series_at seqinfo dt in
  let sortedSeqinfo :=
    fold_left (append_by_uid dTseries) (sorted (uids_of dTseries))
      sortedSeqinfo in
  fold_left append_if_absent dTseries sortedSeqinfo.

(** The records placed by the [for dt in sorted(dateTimes)] loop. *)
Definition timed_part (seqinfo : list SeriesRecord) : list SeriesRecord :=
  let dateTimes := map date_time (filter has_date_time seqinfo) in
  fold_left (append_date_time seqinfo) (sorted_set dateTimes) [].

Definition sort_seqinfo_by_series_date_time (seqinfo : list SeriesRecord)
  : list SeriesRecord :=
  fold_left append_if_absent seqinfo (timed_part seqinfo).

(* ================================================================== *)
(** ** infotodict *)

(** The names [infotodict] reads without binding them, in this module or in
    any import: looking one up is [Some v] where the environment that runs
    the module binds it, and raises [NameError] otherwise. *)
Record Globals : Type := mkGlobals {
  direction : option string;
  another_series_has_identical_start_time :
    option (list SeriesRecord -> nat -> bool);
  previous_series_is_sbref : option (list SeriesRecord -> nat -> bool);
  t1_dicom : option Key;
  t2_dicom : option Key
}.

(** The module as it is written binds none of them. *)
Definition module_globals : Globals := mkGlobals None None None None None.

Definition global {A : Type} (x : option A) : result A :=
  match x with
  | Some v => OK v
  | None => Raise NameError
  end.

(** The keys created at the start of [infotodict]. *)
Record StaticKeys : Type := mkStaticKeys {
  t1 : Key;
  t2 : Key;
  inplaneT1 : Key;
  pd_bias_body : Key;
  pd_bias_receive : Key;
  ir : Key;
  variable_fa : Key;
  dwi : Key;
  dwi_sbref : Key;
  fmap_gre_mag : Key;
  fmap_gre_phase : Key;
  t2_scout : Key;
  screen_save : Key
}.

Definition static_keys : result StaticKeys :=
  t1 <- create_key "anat" "acq-{acq}_run-{item:02d}_T1w" ;;
  t2 <- create_key "anat" "acq-{acq}_run-{item:02d}_T2w" ;;
  inplaneT1 <- create_key "anat" "run-{item:02d}_inplaneT1" ;;
  pd_bias_body <- create_key "anat" "acq-biasBody_run-{item:02d}_PD" ;;
  pd_bias_receive <- create_key "anat" "acq-biasReceive_run-{item:02d}_PD" ;;
  ir <- create_key "anat" "inv-{item:02d}_IRT1" ;;
  variable_fa <- create_key "anat" "flip-{item:02d}_VFA" ;;
  dwi <- create_key "dwi" "acq-{acq}_run-{item:02d}_dwi" ;;
  dwi_sbref <- create_key "dwi" "acq-{acq}_run-{item:02d}_sbref" ;;
  fmap_gre_mag <- create_key "fmap" "acq-GRE_run-{item:02d}_magnitude" ;;
  fmap_gre_phase <- create_key "fmap" "acq-GRE_run-{item:02d}_phasediff" ;;
  t2_scout <- create_key_dicom "anat" "acq-Scout_run-{item:02d}_T2w" ;;
  screen_save <- create_key_dicom "misc" "run-{item:02d}_screensave" ;;
  OK (mkStaticKeys t1 t2 inplaneT1 pd_bias_body pd_bias_receive ir variable_fa
        dwi dwi_sbref fmap_gre_mag fmap_gre_phase t2_scout screen_save).

(** The dictionary literal [info = {t1: [], ...}], filled left to right. *)
Definition initial_info (K : StaticKeys) : Info :=
  fold_left (fun d k => isetitem d k [])
    [ t1 K; t2 K; inplaneT1 K; pd_bias_body K; pd_bias_receive K;
      dwi K; dwi_sbref K; fmap_gre_mag K; fmap_gre_phase K;
      t2_scout K; screen_save K ] [].

(** [x in t] for a tuple of strings. *)
Definition in_tuple (x : string) (t : list string) : bool :=
  existsb (String.eqb x) t.

(** [l[i]] for an int index: a negative one counts from the end. *)
Definition index_int {A : Type} (l : list A) (i : Z) : result A :=
  let n := Z.of_nat (List.length l) in
  if (i <? 0)%Z then
    if (i + n <? 0)%Z then Raise IndexError
    else PyStr.index l (Z.to_nat (i + n))
  else PyStr.index l (Z.to_nat i).

(** [info[k].append(a)] *)
Definition append_to (info : Info) (k : Key) (a : Assignment) : result Info :=
  l <- igetitem info k ;;
  OK (isetitem info k (l ++ [a])%list).

(** [add_series_to_info_dict(series_id, mykey, info)] called on the
    dictionary [info] with a [create_key] tuple; the value the call returns
    is dropped. *)
Definition add_series (series_id : string) (mykey : Key) (info : Info)
  : result Info :=
  '(_, info') <- add_series_to_info_dict series_id (KTuple mykey) (Some info) "" ;;
  match info' with
  | Some d => OK d
  | None => OK info
  end.

(** [direction or 'normal'] *)
Definition direction_or_normal (g : Globals) : result string :=
  d <- global (direction g) ;;
  OK (if PyStr.nonempty d then d else "normal").

(** The dictionary with the run number of each task. *)
Definition RunNumbers : Type := dict string Z.

(** *** The conditions of the cascade, in the order the source tests them *)

Definition is_highres_t1w (s : SeriesRecord) : bool :=
  let prot_name := PyStr.lower (protocol_name s) in
  (dim4 s =? 1)%Z
  && PyStr.contains "fl" (sequence_name s)
  && (PyStr.contains "t1" prot_name
      || (PyStr.contains "mp" prot_name && PyStr.contains "rage" prot_name)
      || PyStr.contains "mpr" prot_name).

Definition is_inplane (s : SeriesRecord) : bool :=
  (dim4 s =? 1)%Z
  && PyStr.contains "efgre3d" (sequence_name s)
  && PyStr.contains "inplane" (PyStr.lower (series_description s)).

Definition is_fse_t1w (s : SeriesRecord) : bool :=
  let prot_name := PyStr.lower (protocol_name s) in
  (dim4 s =? 1)%Z
  && PyStr.contains "t1" prot_name
  && PyStr.contains "tse" (sequence_name s).

Definition is_scout (s : SeriesRecord) : bool :=
  sequence_name s =? "fgre".

Definition is_highres_t2w (s : SeriesRecord) : bool :=
  let prot_name := PyStr.lower (protocol_name s) in
  (dim4 s =? 1)%Z
  && (PyStr.contains "T2" (protocol_name s)
      || PyStr.contains "tse" prot_name
      || PyStr.contains "space" prot_name
      || PyStr.contains "spc" prot_name).

Definition is_haste (s : SeriesRecord) : bool :=
  (dim4 s =? 1)%Z && PyStr.contains "h2d1" (sequence_name s).

Definition is_pd_bias (s : SeriesRecord) : bool :=
  PyStr.contains "ASSET calibration" (series_description s)
  && PyStr.contains "efgre3d" (sequence_name s).

Definition is_inversion_recovery (s : SeriesRecord) : bool :=
  PyStr.contains "cni_ir_epi" (sequence_name s).

Definition is_variable_fa (s : SeriesRecord) : bool :=
  PyStr.contains "cni_3dgrass" (sequence_name s)
  && PyStr.contains "deg" (series_description s).

Definition is_functional (s : SeriesRecord) : bool :=
  (dim4 s >=? 4)%Z
  && (PyStr.contains "cni_epi" (sequence_name s)
      || PyStr.contains "muxarcepi" (sequence_name s))
  && negb (in_tuple "DERIVED" (image_type s)).

Definition is_se_fieldmap (s : SeriesRecord) : bool :=
  let prot_name := PyStr.lower (protocol_name s) in
  (dim4 s <=? 3)%Z
  && PyStr.contains "epse2d" (sequence_name s)
  && in_tuple "M" (image_type s)
  && (PyStr.contains "dist" prot_name
      || PyStr.contains "map" prot_name
      || PyStr.contains "field" prot_name)
  && negb (PyStr.endswith "_sbref" (PyStr.lower (series_description s))).

Definition is_gre_fieldmap (s : SeriesRecord) : bool :=
  let prot_name := PyStr.lower (protocol_name s) in
  PyStr.contains "fm2d" (sequence_name s)
  && (PyStr.contains "fieldmap" prot_name
      || PyStr.contains "field_map" prot_name).

Definition is_diffusion (s : SeriesRecord) : bool :=
  PyStr.contains "ep_b" (sequence_name s).

Definition is_screen_save (s : SeriesRecord) : bool :=
  in_tuple "DERIVED" (image_type s) && in_tuple "SCREEN SAVE" (image_type s).

Section Cascade.
Variable g : Globals.
Variable K : StaticKeys.
(** The sorted list the loop enumerates. *)
Variable seqinfo : list SeriesRecord.

(** ['NORM' not in s.image_type
     and another_series_has_identical_start_time(seqinfo, idx)] *)
Definition unnormalized_duplicate (idx : nat) (s : SeriesRecord)
  : result bool :=
  if negb (in_tuple "NORM" (image_type s)) then
    f <- global (another_series_has_identical_start_time g) ;;
    OK (f seqinfo idx)
  else OK false.

(** The first [if]/[elif] statement of the loop body (T1w). *)
Definition t1w_chain (idx : nat) (s : SeriesRecord) (info : Info)
  : result Info :=
  if is_highres_t1w s then
    d <- global (direction g) ;;
    let acq := "highres" ++ d in
    dup <- unnormalized_duplicate idx s ;;
    if dup then
      k <- global (t1_dicom g) ;;
      append_to info k (mkAssignment (series_id s) (Some acq))
    else append_to info (t1 K) (mkAssignment (series_id s) (Some acq))
  else if is_inplane s then
    append_to info (inplaneT1 K) (mkAssignment (series_id s) None)
  else if is_fse_t1w s then
    d <- global (direction g) ;;
    let acq := "fse" ++ d in
    append_to info (t1 K) (mkAssignment (series_id s) (Some acq))
  else OK info.

(** The [if run_numbers.get(task)] statement. *)
Definition next_run (run_numbers : RunNumbers) (task : string) : RunNumbers :=
  match get string_dec run_numbers task with
  | Some n =>
      if (n =? 0)%Z then setitem string_dec run_numbers task 1%Z
      else setitem string_dec run_numbers task (n + 1)%Z
  | None => setitem string_dec run_numbers task 1%Z
  end.

(** The diffusion branch, reached on ['ep_b' in s.sequence_name]. *)
Definition diffusion (idx : nat) (s : SeriesRecord) (info : Info)
  : result Info :=
  if (dim4 s >=? 5)%Z then
    let acq := PyStr.str_of_int (dim4 s) ++ "vols" in
    info <- append_to info (dwi K) (mkAssignment (series_id s) (Some acq)) ;;
    sbref <- global (previous_series_is_sbref g) ;;
    if sbref seqinfo idx then
      prev <- index_int seqinfo (Z.of_nat idx - 1) ;;
      if PyStr.contains "epse2d" (sequence_name prev) then
        append_to info (dwi_sbref K)
          (mkAssignment (series_id prev) (Some acq))
      else OK info
    else OK info
  else
    run_dir <- direction_or_normal g ;;
    mykey <- create_key "fmap"
               ("acq-dwi_dir-" ++ run_dir ++ "_run-{item:02d}_epi") ;;
    info <- add_series (series_id s) mykey info ;;
    sbref <- global (previous_series_is_sbref g) ;;
    if sbref seqinfo idx then
      mykey <- create_key_dicom "fmap"
                 ("acq-dwi_dir-" ++ run_dir ++ "_run-{item:02d}_sbref") ;;
      prev <- index_int seqinfo (Z.of_nat idx - 1) ;;
      add_series (series_id prev) mykey info
    else OK info.

(** The spin-echo field-map branch.  [nth_error seqinfo (idx + 1)] is
    [Some] exactly when [idx + 1 < len(seqinfo)]. *)
Definition se_fieldmap (idx : nat) (s : SeriesRecord) (info : Info)
  : result Info :=
  run_dir <- direction_or_normal g ;;
  let single :=
    mykey <- create_key "fmap"
               ("acq-fMRI_dir-" ++ run_dir ++ "_run-{item:02d}_epi") ;;
    add_series (series_id s) mykey info in
  match nth_error seqinfo (idx + 1) with
  | Some next =>
      if (protocol_name next =? protocol_name s)
         && in_tuple "P" (image_type next)
      then
        mykey_mag <- create_key "fmap"
          ("acq-fMRI_rec-magnitude_dir-" ++ run_dir ++ "_run-{item:02d}_epi") ;;
        mykey_pha <- create_key "fmap"
          ("acq-fMRI_rec-phase_dir-" ++ run_dir ++ "_run-{item:02d}_epi") ;;
        info <- add_series (series_id s) mykey_mag info ;;
        add_series (series_id next) mykey_pha info
      else single
  | None => single
  end.

(** The functional branch. *)
Definition functional (s : SeriesRecord) (st : Info * RunNumbers)
  : result (Info * RunNumbers) :=
  let '(info, run_numbers) := st in
  task <- extract_task_name (series_description s) ;;
  let run_numbers := next_run run_numbers task in
  n <- getitem string_dec run_numbers task ;;
  mykey <- create_key "func"
             ("task-" ++ task ++ "_run-" ++ PyStr.fmt_02d n ++ "_bold") ;;
  info <- add_series (series_id s) mykey info ;;
  OK (info, run_numbers).

(** The GRE field-map branch: magnitude or phase by [s.image_type[2]].  The
    [elif] reads [s.image_type[2]] again, which cannot fail once the [if]
    has read it. *)
Definition gre_fieldmap (s : SeriesRecord) (info : Info) : result Info :=
  flag <- PyStr.index (image_type s) 2 ;;
  if flag =? "M" then
    append_to info (fmap_gre_mag K) (mkAssignment (series_id s) None)
  else if flag =? "P" then
    append_to info (fmap_gre_phase K) (mkAssignment (series_id s) None)
  else OK info.

(** The T2w branch, with the same handling of duplicates as the T1w one. *)
Definition highres_t2w (idx : nat) (s : SeriesRecord) (info : Info)
  : result Info :=
  d <- global (direction g) ;;
  let acq := "highres" ++ d in
  dup <- unnormalized_duplicate idx s ;;
  if dup then
    k <- global (t2_dicom g) ;;
    append_to info k (mkAssignment (series_id s) (Some acq))
  else append_to info (t2 K) (mkAssignment (series_id s) (Some acq)).

(** The second [if]/[elif] statement of the loop body (T2w and all the
    categories after it). *)
Definition t2w_chain (idx : nat) (s : SeriesRecord) (st : Info * RunNumbers)
  : result (Info * RunNumbers) :=
  let '(info, run_numbers) := st in
  let keep (r : result Info) := info <- r ;; OK (info, run_numbers) in
  if is_scout s then
    keep (append_to info (t2_scout K) (mkAssignment (series_id s) None))
  else if is_highres_t2w s then keep (highres_t2w idx s info)
  else if is_haste s then
    keep (k <- global (t2_dicom g) ;;
          append_to info k (mkAssignment (series_id s) (Some "haste")))
  else if is_pd_bias s then
    keep (append_to info (pd_bias_receive K)
            (mkAssignment (series_id s) None))
  else if is_inversion_recovery s then
    keep (add_series (series_id s) (ir K) info)
  else if is_variable_fa s then
    keep (add_series (series_id s) (variable_fa K) info)
  else if is_functional s then functional s (info, run_numbers)
  else if is_se_fieldmap s then keep (se_fieldmap idx s info)
  else if is_gre_fieldmap s then keep (gre_fieldmap s info)
  else if is_diffusion s then keep (diffusion idx s info)
  else if is_screen_save s then
    keep (append_to info (screen_save K) (mkAssignment (series_id s) None))
  else OK (info, run_numbers).

(** The body of [for idx, s in enumerate(seqinfo)]. *)
Definition classify_series (idx : nat) (s : SeriesRecord)
    (st : Info * RunNumbers) : result (Info * RunNumbers) :=
  let '(info, run_numbers) := st in
  info <- t1w_chain idx s info ;;
  t2w_chain idx s (info, run_numbers).

Fixpoint classify_from (idx : nat) (rest : list SeriesRecord)
    (st : Info * RunNumbers) : result (Info * RunNumbers) :=
  match rest with
  | [] => OK st
  | s :: rest' =>
      st' <- classify_series idx s st ;;
      classify_from (S idx) rest' st'
  end.

End Cascade.

Definition infotodict (g : Globals) (seqinfo : list SeriesRecord)
  : result Info :=
  K <- static_keys ;;
  let info := initial_info K in
  let run_numbers : RunNumbers := [] in
  let seqinfo := sort_seqinfo_by_series_date_time seqinfo in
  '(info, _) <- classify_from g K seqinfo 0 seqinfo (info, run_numbers) ;;
  clean_up_unneeded_tags_from_info info.

(* ================================================================== *)
(** ** Notions used by the statements *)

(** [a] is put at the end of the sequence of [k] (a new sequence if [k] had
    none): what both [info[k].append(a)] and [add_series_to_info_dict] do
    when they succeed. *)
Definition dict_append (info : Info) (k : Key) (a : Assignment) : Info :=
  match iget info k with
  | Some l => isetitem info k (l ++ [a])%list
  | None => isetitem info k [a]
  end.

Definition dict_append_all (info : Info) (l : list (Key * Assignment)) : Info :=
  fold_left (fun d ka => dict_append d (fst ka) (snd ka)) l info.

(** Some assignment under [k] has [sid] as its item. *)
Definition assigned_under (sid : string) (k : Key) (info : Info) : Prop :=
  exists l a, iget info k = Some l /\ In a l /\ item a = sid.

(** [a] is the last assignment of [k] in [info'], after the ones [k] had in
    [info]. *)
Definition registered (info info' : Info) (k : Key) (a : Assignment) : Prop :=
  iget info' k
  = Some ((match iget info k with Some l => l | None => [] end) ++ [a])%list.

(** A template without any run tag the cleanup pass looks for. *)
Definition run_free (t : string) : bool :=
  negb (PyStr.contains RUN_PLACEHOLDER t) && negb (PyStr.contains RUN_01 t).

(** A template carries at most one kind of run tag, and erasing (or, for the
    literal first run, renumbering) it leaves no run tag behind. *)
Definition separable (t : string) : bool :=
  if PyStr.contains RUN_PLACEHOLDER t then
    negb (PyStr.contains RUN_01 t)
    && run_free (PyStr.replace RUN_PLACEHOLDER "" t)
  else if PyStr.contains RUN_01 t then
    run_free (PyStr.replace RUN_01 "" t)
    && run_free (PyStr.replace RUN_01 RUN_02 t)
  else true.

Definition separable_keys (info : Info) : Prop :=
  Forall (fun k => separable (template k) = true) (keys info).

(** The key the placeholder rewrite, resp. the first-run rewrite, turns [k]
    into. *)
Definition without_placeholder (k : Key) : Key :=
  with_template k (PyStr.replace RUN_PLACEHOLDER "" (template k)).

Definition without_run_01 (k : Key) : Key :=
  with_template k (PyStr.replace RUN_01 "" (template k)).

(** No template of [info] is the second-run sibling of [k]. *)
Definition no_second_run (k : Key) (info : Info) : bool :=
  negb (in_strings (PyStr.replace RUN_01 RUN_02 (template k)) (templates info)).

(** [info] after [info[new_k] = info.pop(k)], where [v] was under [k]. *)
Definition renamed (info : Info) (k new_k : Key) (v : list Assignment) : Info :=
  isetitem (iremove info k) new_k v.

(** A key is settled in [info] when the loop body has nothing to do on it. *)
Definition settled (info : Info) (k : Key) : Prop :=
  forall v, iget info k = Some v ->
    (List.length v =? 1)%nat && PyStr.contains RUN_PLACEHOLDER (template k)
    = false
    /\ PyStr.contains RUN_01 (template k) && no_second_run k info = false.

(** The state of the loop: the keys still to visit are present and distinct,
    every key is separable and the keys already visited are settled. *)
Record clean_up_inv (ks : list Key) (info : Info) : Prop := {
  inv_present : forall k, In k ks -> In k (keys info);
  inv_nodup : NoDup ks;
  inv_separable : forall k, In k (keys info) -> separable (template k) = true;
  inv_settled : forall k, In k (keys info) -> ~ In k ks -> settled info k
}.

(** Every record has a date and a time. *)
Definition all_timed (l : list SeriesRecord) : Prop :=
  Forall (fun s => has_date_time s = true) l.

(** Neither a date nor a time; at least one of them. *)
Definition lacks_date_and_time (s : SeriesRecord) : bool :=
  negb (truthy (date s)) && negb (truthy (time s)).

Definition has_date_or_time (s : SeriesRecord) : bool :=
  truthy (date s) || truthy (time s).

(** In [out], every record that satisfies [late] stands after every record
    that satisfies [early]. *)
Definition all_after (late early : SeriesRecord -> bool)
    (out : list SeriesRecord) : Prop :=
  forall i j r1 r2,
    nth_error out i = Some r1 -> nth_error out j = Some r2 ->
    late r1 = true -> early r2 = true -> (j < i)%nat.

(** The file suffix of the diffusion field-map key for direction label [d]:
    ['acq-dwi_dir-%s_run-{item:02d}_epi' % (d or 'normal')]. *)
Definition diffusion_fmap_suffix (d : string) : string :=
  "acq-dwi_dir-" ++ (if PyStr.nonempty d then d else "normal")
  ++ "_run-{item:02d}_epi".

(** All the conditions of the second chain before the diffusion one fail,
    and the diffusion one holds. *)
Definition reaches_diffusion (s : SeriesRecord) : bool :=
  negb (is_scout s) && negb (is_highres_t2w s) && negb (is_haste s)
  && negb (is_pd_bias s) && negb (is_inversion_recovery s)
  && negb (is_variable_fa s) && negb (is_functional s)
  && negb (is_se_fieldmap s) && negb (is_gre_fieldmap s)
  && is_diffusion s.

(** The labels [extract_task_name] returns for the known tasks. *)
Definition known_labels : list string :=
  [ "rest"; "face"; "conflict"; "gamble"; "fix"; "films"; "inscapes";
    "loc"; "mt"; "ret" ].

(** Some known task occurs in the (lower-cased) name. *)
Definition names_known_task (prot_name : string) : bool :=
  existsb (fun task_name => PyStr.contains task_name prot_name) known_tasks.

(** Free of the separators of a BIDS file name: ['_'], ['-'] and the space. *)
Definition no_separator (t : string) : bool :=
  negb (PyStr.contains "_" t) && negb (PyStr.contains "-" t)
  && negb (PyStr.contains " " t).

(** Where an entry of [info] comes from: its key is a key of [M], as it was
    or with a run tag erased, and its sequence is a sequence of [M]. *)
Definition from_map (M info : Info) : Prop :=
  forall k' v, iget info k' = Some v ->
    (exists k, In k (keys M)
               /\ (k' = k \/ k' = without_placeholder k
                   \/ k' = without_run_01 k))
    /\ (exists k, iget M k = Some v).

(** In [out], a record with a date and a time stands before every record
    whose date and time, concatenated, are later in the order of strings. *)
Definition chronological (out : list SeriesRecord) : Prop :=
  forall i j r1 r2,
    nth_error out i = Some r1 -> nth_error out j = Some r2 ->
    has_date_time r1 = true -> has_date_time r2 = true ->
    (date_time r1 <? date_time r2) = true -> (i < j)%nat.

(** The date and time of [x] are not later than those of [y]. *)
Definition not_later (x y : SeriesRecord) : Prop :=
  (date_time x <=? date_time y) = true.

Definition string_le (a b : string) : Prop := (a <=? b) = true.

(** No condition of either chain holds for the record. *)
Definition matches_no_rule (s : SeriesRecord) : bool :=
  negb (is_highres_t1w s) && negb (is_inplane s) && negb (is_fse_t1w s)
  && negb (is_scout s) && negb (is_highres_t2w s) && negb (is_haste s)
  && negb (is_pd_bias s) && negb (is_inversion_recovery s)
  && negb (is_variable_fa s) && negb (is_functional s)
  && negb (is_se_fieldmap s) && negb (is_gre_fieldmap s)
  && negb (is_diffusion s) && negb (is_screen_save s).

(** The record takes a branch whose first statement reads [direction] or
    [t2_dicom]: the high-resolution or the FSE T1w branch, the T2w branch or
    the HASTE branch. *)
Definition reads_unbound_name (s : SeriesRecord) : bool :=
  is_highres_t1w s
  || (negb (is_inplane s) && is_fse_t1w s)
  || (negb (is_scout s) && (is_highres_t2w s || is_haste s)).

(** The run number the functional branch gives the next series of [task]. *)
Definition next_run_number (run_numbers : RunNumbers) (task : string) : Z :=
  match get string_dec run_numbers task with
  | Some n => if (n =? 0)%Z then 1%Z else (n + 1)%Z
  | None => 1%Z
  end.

(** No condition of the first (T1w) chain holds for the record. *)
Definition no_t1w_rule (s : SeriesRecord) : bool :=
  negb (is_highres_t1w s) && negb (is_inplane s) && negb (is_fse_t1w s).

(** All the conditions of the second chain before the spin-echo field-map
    one fail, and the spin-echo one holds. *)
Definition reaches_se_fieldmap (s : SeriesRecord) : bool :=
  negb (is_scout s) && negb (is_highres_t2w s) && negb (is_haste s)
  && negb (is_pd_bias s) && negb (is_inversion_recovery s)
  && negb (is_variable_fa s) && negb (is_functional s)
  && is_se_fieldmap s.

(** The same for the GRE field-map condition. *)
Definition reaches_gre_fieldmap (s : SeriesRecord) : bool :=
  negb (is_scout s) && negb (is_highres_t2w s) && negb (is_haste s)
  && negb (is_pd_bias s) && negb (is_inversion_recovery s)
  && negb (is_variable_fa s) && negb (is_functional s)
  && negb (is_se_fieldmap s) && is_gre_fieldmap s.

(** The record after position [idx], when it is the phase image of [s]:
    it exists, has the protocol name of [s] and carries the flag 'P'. *)
Definition phase_partner (seqinfo : list SeriesRecord) (idx : nat)
    (s : SeriesRecord) : option SeriesRecord :=
  match nth_error seqinfo (idx + 1) with
  | Some next =>
      if (protocol_name next =? protocol_name s)
         && in_tuple "P" (image_type next)
      then Some next else None
  | None => None
  end.

(** The environment binds the five names [infotodict] reads without
    binding them, the two keys for DICOM-only copies to keys the dictionary
    [info] starts with. *)
Definition binds_free_names (g : Globals) (K : StaticKeys) : Prop :=
  (exists d, direction g = Some d)
  /\ (exists f, another_series_has_identical_start_time g = Some f)
  /\ (exists p, previous_series_is_sbref g = Some p)
  /\ (exists k, t1_dicom g = Some k /\ In k (keys (initial_info K)))
  /\ (exists k, t2_dicom g = Some k /\ In k (keys (initial_info K))).

(** The two reads of a record that can fail find what they look for: a GRE
    field map has a third image-type entry, and the description of a
    functional series yields a task label. *)
Definition readable (s : SeriesRecord) : bool :=
  implb (is_gre_fieldmap s) (2 <? List.length (image_type s))%nat
  && implb (is_functional s)
       match extract_task_name (series_description s) with
       | OK _ => true
       | Raise _ => false
       end.

(** The state of the loop of [infotodict]: the keys are distinct and the
    keys [info] started with are still there. *)
Definition keeps_keys (K : StaticKeys) (info : Info) : Prop :=
  NoDup (keys info)
  /\ forall k, In k (keys (initial_info K)) -> In k (keys info).

(** Every assignment of [info] names a series of [seqinfo]. *)
Definition from_input (seqinfo : list SeriesRecord) (info : Info) : Prop :=
  forall k l a,
    iget info k = Some l -> In a l ->
    exists s, In s seqinfo /\ item a = series_id s.

(** Among the records of one date and time, no series UID occurs twice. *)
Definition distinct_uids (seqinfo : list SeriesRecord) : Prop :=
  forall dt, NoDup (uids_of (series_at seqinfo dt)).

(** [info'] is [info] after at most one assignment of the record [s] itself
    ([own]), followed by at most one assignment ([other]) of a record that
    satisfies [paired], which carries the series id of that record. *)
Definition adds (paired : SeriesRecord -> Prop) (s : SeriesRecord)
    (info info' : Info) : Prop :=
  exists own other : list (Key * Assignment),
    (List.length own <= 1)%nat /\ (List.length other <= 1)%nat
    /\ Forall (fun ka => item (snd ka) = series_id s) own
    /\ Forall (fun ka => exists r, paired r /\ item (snd ka) = series_id r)
         other
    /\ info' = dict_append_all info (own ++ other)%list.

(** No record is paired with the record. *)
Definition unpaired (r : SeriesRecord) : Prop := False.

(** The record a loop step can assign along with the record [s] at position
    [idx]: for a spin-echo field map the record after it, [seqinfo[idx + 1]]
    (its phase image); for a diffusion series the record before it,
    [seqinfo[idx - 1]] (its reference scan), which for [idx = 0] is the last
    record of the list.  A record of another branch has none. *)
Definition neighbour (seqinfo : list SeriesRecord) (idx : nat)
    (s r : SeriesRecord) : Prop :=
  (reaches_se_fieldmap s = true /\ nth_error seqinfo (idx + 1) = Some r)
  \/ (reaches_diffusion s = true
      /\ index_int seqinfo (Z.of_nat idx - 1) = OK r).

(** What the second chain adds for the record [s] at position [idx]. *)
Definition step_adds (seqinfo : list SeriesRecord) (idx : nat)
    (s : SeriesRecord) (info info' : Info) : Prop :=
  adds (neighbour seqinfo idx s) s info info'.

(** The number of assignments that carry the series id [sid]: in one
    sequence, and in all the sequences of a map. *)
Definition count_item (sid : string) (l : list Assignment) : nat :=
  List.length (filter (fun a => item a =? sid) l).

Definition occurrences (sid : string) (info : Info) : nat :=
  list_sum (map (fun kv => count_item sid (snd kv)) info).

(** *** Concrete inputs *)

Definition series (id : string) (date time uid : option string)
    (prot descr seq : string) (flags : list string) (vols : Z) : SeriesRecord :=
  mkSeries id date time uid prot descr seq flags vols [].

(** A GRE field map whose [image_type] is the empty tuple. *)
Definition gre_without_flags : SeriesRecord :=
  series "7" None None None "fieldmap" "" "fm2d" [] 2.

(** A single-volume MPRAGE. *)
Definition mprage : SeriesRecord :=
  series "2" None None None "t1_mprage" "" "tfl3d1" ["ORIGINAL"; "PRIMARY"; "M"] 1.

(** An in-plane anatomical whose description also names the coil calibration. *)
Definition inplane_calibration : SeriesRecord :=
  series "3" None None None "anat" "ASSET calibration inplane" "efgre3d" [] 1.

(** Two different series with the same date, time and UID. *)
Definition shared_uid_a : SeriesRecord :=
  series "1" (Some "20210209") (Some "101500") (Some "1.2.840.1") "" "" "" [] 1.
Definition shared_uid_b : SeriesRecord :=
  series "2" (Some "20210209") (Some "101500") (Some "1.2.840.1") "" "" "" [] 1.

(** A series with neither date nor time, and one with a date only. *)
Definition undated : SeriesRecord :=
  series "4" None None None "" "" "" [] 1.
Definition date_only : SeriesRecord :=
  series "5" (Some "20210209") None None "" "" "" [] 1.
Definition timed : SeriesRecord :=
  series "6" (Some "20210209") (Some "093000") None "" "" "" [] 1.

(** Diffusion series of five and of three volumes. *)
Definition diffusion_5vols : SeriesRecord :=
  series "9" None None None "dti" "" "ep_b0" [] 5.
Definition diffusion_3vols : SeriesRecord :=
  series "10" None None None "dti" "" "ep_b0" [] 3.

(** The keys [static_keys] evaluates to. *)
Definition the_static_keys : StaticKeys :=
  Eval vm_compute in
    match static_keys with
    | OK K => K
    | Raise _ =>
        let k := mkKey "" [] None in
        mkStaticKeys k k k k k k k k k k k k k
    end.

(** A functional series of the task "rest". *)
Definition resting_state : SeriesRecord :=
  series "11" None None None "fmri" "REST bold" "cni_epi" ["ORIGINAL"] 200.

(** A localizer. *)
Definition localizer : SeriesRecord :=
  series "12" None None None "3Plane Loc" "localizer" "fgre" [] 15.

(** A series no rule knows. *)
Definition unknown_series : SeriesRecord :=
  series "13" None None None "spectro" "MRS" "press" [] 1.

(** The phase-difference image of a GRE field map. *)
Definition gre_phase : SeriesRecord :=
  series "14" None None None "gre_field_map" "" "fm2d2r"
    ["ORIGINAL"; "PRIMARY"; "P"; "ND"] 1.

(** A spin-echo field map: the magnitude series and the phase series that
    follows it. *)
Definition se_magnitude : SeriesRecord :=
  series "15" None None None "SE_distortion_map" "" "epse2d1_86"
    ["ORIGINAL"; "PRIMARY"; "M"; "ND"] 3.
Definition se_phase : SeriesRecord :=
  series "16" None None None "SE_distortion_map" "" "epse2d1_86"
    ["ORIGINAL"; "PRIMARY"; "P"; "ND"] 3.

(** An environment that binds the free names, the two keys for DICOM-only
    copies to the scout key. *)
Definition dicom_globals : Globals :=
  mkGlobals (Some "AP") (Some (fun _ _ => false)) (Some (fun _ _ => false))
    (Some (t2_scout the_static_keys)) (Some (t2_scout the_static_keys)).

(** A session: localizer, anatomical, functional run, field maps and a
    short diffusion series. *)
Definition session : list SeriesRecord :=
  [ localizer; mprage; resting_state; se_magnitude; se_phase; gre_phase;
    diffusion_3vols; unknown_series ].

(** What [infotodict] returns on that session. *)
Definition session_info : Info :=
  Eval vm_compute in
    match infotodict dicom_globals session with
    | OK info => info
    | Raise _ => []
    end.

(** A series at the date and time of [shared_uid_a], with a UID of its own. *)
Definition later_uid : SeriesRecord :=
  series "17" (Some "20210209") (Some "101500") (Some "1.2.840.2") "" "" "" [] 1.

(** A series acquired after [timed], with a UID. *)
Definition later_slot : SeriesRecord :=
  series "18" (Some "20210209") (Some "113000") (Some "1.2.840.3") "" "" "" [] 1.

(** A diffusion series whose sequence name also carries the spin-echo
    marker, and an environment in which every series counts as preceded by a
    reference scan. *)
Definition diffusion_epse2d : SeriesRecord :=
  series "9" None None None "dti" "" "epse2d1_ep_b0" [] 30.

Definition sbref_globals : Globals :=
  mkGlobals (Some "") (Some (fun _ _ => false)) (Some (fun _ _ => true))
    (Some (mkKey "t1_dicom" ["dicom"] None))
    (Some (mkKey "t2_dicom" ["dicom"] None)).

(** An environment that binds the free names of [infotodict]: no direction
    label, no duplicate and no preceding reference scan. *)
Definition bound_globals : Globals :=
  mkGlobals (Some "") (Some (fun _ _ => false)) (Some (fun _ _ => false))
    (Some (mkKey "t1_dicom" ["dicom"] None))
    (Some (mkKey "t2_dicom" ["dicom"] None)).

Definition func_key (t : string) : Key := mkKey t ["nii.gz"; "dicom"] None.

Definition item_only (id : string) : Assignment := mkAssignment id None.

(** One run whose template carries the literal first run and the placeholder. *)
Definition nested_tags : Info :=
  [ (func_key "func/task-rest_run-01_run-{item:02d}_bold", [item_only "1"]) ].

(** Two assignments under a hard-coded first run without a second run. *)
Definition first_run_twice : Info :=
  [ (func_key "func/task-rest_run-01_bold", [item_only "1"; item_only "2"]) ].

(** The key of a spin-echo field map acquired twice. *)
Definition two_maps_key : Key :=
  func_key "fmap/acq-fMRI_dir-normal_run-{item:02d}_epi".

(** What a pass typically leaves: one T1w, two runs of a task, an empty key. *)
Definition typical_info : Info :=
  [ (func_key "anat/acq-{acq}_run-{item:02d}_T1w", [mkAssignment "2" (Some "highres")]);
    (func_key "dwi/acq-{acq}_run-{item:02d}_dwi", []);
    (func_key "func/task-rest_run-01_bold", [item_only "5"]);
    (func_key "func/task-rest_run-02_bold", [item_only "6"]);
    (func_key "func/task-face_run-01_bold", [item_only "7"]);
    (two_maps_key, [item_only "8"; item_only "9"]) ].

(* ================================================================== *)
(** ** Theorems: extract_task_name *)

(** C9. [extract_task_name] returns "rest" on "REST bold", "nback" on
    "custom_task-nback_acq1" and the fallback "TASK" on "unlabeled scan". *)
Theorem extract_task_name_examples :
  extract_task_name "REST bold" = OK "rest"
  /\ extract_task_name "custom_task-nback_acq1" = OK "nback"
  /\ extract_task_name "unlabeled scan" = OK "TASK".
Proof. repeat split; reflexivity. Qed.

(** C4. [extract_task_name] is not total and its result is not always a
    non-empty alphanumeric label: on "task" the unguarded [task_name[0]]
    raises IndexError, on "task-" the result is the empty string, and on
    "task.a+b" the result keeps the punctuation. *)
Theorem extract_task_name_partial :
  extract_task_name "task" = Raise IndexError
  /\ extract_task_name "task-" = OK ""
  /\ (exists r, extract_task_name "task.a+b" = OK r
                /\ PyStr.alnum_label r = false).
Proof.
  repeat split; try reflexivity.
  exists ".a+b". split; reflexivity.
Qed.

(* ================================================================== *)
(** ** Theorems: add_series_to_info_dict *)

(** C8. A call with a missing map or with the empty key does not raise: it
    returns the class object [Exception] as an ordinary value and leaves the
    map as it was ([return Exception], not [raise]). *)
Theorem add_series_to_info_dict_returns_on_invalid_call :
  forall (series_id acq : string) (mykey : KeyArg) (info : Info),
    add_series_to_info_dict series_id mykey None acq
    = OK (RetExceptionClass, None)
    /\ add_series_to_info_dict series_id KEmptyStr (Some info) acq
       = OK (RetExceptionClass, Some info)
    /\ ~ raises (add_series_to_info_dict series_id mykey None acq)
    /\ ~ raises (add_series_to_info_dict series_id KEmptyStr (Some info) acq).
Proof.
  intros series_id acq mykey info.
  repeat split; try reflexivity; intros [e He]; discriminate He.
Qed.

(* ================================================================== *)
(** ** Theorems: infotodict raises *)

(** C1. [infotodict] is not total: a GRE field map whose [image_type] has
    fewer than three entries makes [s.image_type[2]] raise IndexError,
    whatever the environment binds; and in the module as written a
    single-volume MPRAGE raises NameError on the unbound [direction]. *)
Theorem infotodict_raises :
  (forall g, infotodict g [gre_without_flags] = Raise IndexError)
  /\ infotodict module_globals [mprage] = Raise NameError.
Proof. split; [intro g|]; vm_compute; reflexivity. Qed.

(* ================================================================== *)
(** ** Theorems: sort_seqinfo_by_series_date_time, concrete inputs *)

(** C10. Two different series with the same date, time and UID come out
    twice each: the output is not a permutation of the input. *)
Theorem sort_repeats_shared_uid :
  shared_uid_a <> shared_uid_b
  /\ sort_seqinfo_by_series_date_time [shared_uid_a; shared_uid_b]
     = [shared_uid_a; shared_uid_b; shared_uid_a; shared_uid_b]
  /\ ~ Permutation.Permutation [shared_uid_a; shared_uid_b]
         (sort_seqinfo_by_series_date_time [shared_uid_a; shared_uid_b]).
Proof.
  split; [discriminate|]. split; [reflexivity|].
  intro H. apply Permutation.Permutation_length in H. discriminate H.
Qed.

(* ================================================================== *)
(** ** Lemmas: dictionaries *)

Section DictFacts.
Context {K V : Type}.
Variable K_eq_dec : forall x y : K, {x = y} + {x <> y}.

Lemma get_setitem_same (d : dict K V) k v :
  get K_eq_dec (setitem K_eq_dec d k v) k = Some v.
Proof.
  induction d as [|[k' v'] r IH]; simpl.
  - destruct (K_eq_dec k k); congruence.
  - destruct (K_eq_dec k k') as [E|N]; simpl.
    + destruct (K_eq_dec k k'); congruence.
    + destruct (K_eq_dec k k'); congruence.
Qed.

Lemma get_setitem_other (d : dict K V) k k' v :
  k' <> k -> get K_eq_dec (setitem K_eq_dec d k v) k' = get K_eq_dec d k'.
Proof.
  intro N. induction d as [|[k0 v0] r IH]; simpl.
  - destruct (K_eq_dec k' k); congruence.
  - destruct (K_eq_dec k k0) as [E|N0]; simpl.
    + subst k0. destruct (K_eq_dec k' k); congruence.
    + destruct (K_eq_dec k' k0); congruence.
Qed.

Lemma get_remove_same (d : dict K V) k :
  get K_eq_dec (remove K_eq_dec d k) k = None.
Proof.
  induction d as [|[k0 v0] r IH]; simpl; [reflexivity|].
  destruct (K_eq_dec k k0) as [E|N]; simpl; [assumption|].
  destruct (K_eq_dec k k0); congruence.
Qed.

Lemma get_remove_other (d : dict K V) k k' :
  k' <> k -> get K_eq_dec (remove K_eq_dec d k) k' = get K_eq_dec d k'.
Proof.
  intro N. induction d as [|[k0 v0] r IH]; simpl; [reflexivity|].
  destruct (K_eq_dec k k0) as [E|N0]; simpl.
  - subst k0. destruct (K_eq_dec k' k); congruence.
  - destruct (K_eq_dec k' k0); congruence.
Qed.

Lemma in_keys_get (d : dict K V) k :
  In k (keys d) <-> exists v, get K_eq_dec d k = Some v.
Proof.
  induction d as [|[k0 v0] r IH]; simpl.
  - split; [intros [] | intros [v H]; discriminate H].
  - destruct (K_eq_dec k k0) as [E|N].
    + split; [intros _; eauto | intros _; left; congruence].
    + rewrite <- IH. split; [intros [E|H]; congruence | auto].
Qed.

Lemma in_keys_setitem (d : dict K V) k k' v :
  In k' (keys (setitem K_eq_dec d k v)) <-> k' = k \/ In k' (keys d).
Proof.
  rewrite !in_keys_get. destruct (K_eq_dec k' k) as [E|N].
  - subst k'. rewrite get_setitem_same. split; eauto.
  - rewrite get_setitem_other by assumption.
    split; [auto | intros [E|H]; congruence].
Qed.

Lemma in_keys_remove (d : dict K V) k k' :
  In k' (keys (remove K_eq_dec d k)) <-> k' <> k /\ In k' (keys d).
Proof.
  rewrite !in_keys_get. destruct (K_eq_dec k' k) as [E|N].
  - subst k'. rewrite get_remove_same.
    split; [intros [v H]; discriminate H | intros [N _]; congruence].
  - rewrite get_remove_other by assumption. tauto.
Qed.

(** Assigning to a key that is absent puts the entry last. *)
Lemma setitem_absent (d : dict K V) k v :
  get K_eq_dec d k = None -> setitem K_eq_dec d k v = (d ++ [(k, v)])%list.
Proof.
  induction d as [|[k0 v0] r IH]; simpl; [reflexivity|].
  destruct (K_eq_dec k k0); [discriminate|].
  intro H. now rewrite IH.
Qed.

End DictFacts.

(** With a [create_key] tuple and a map, [add_series_to_info_dict] starts a
    one-element sequence under an absent key, placed last, and otherwise
    puts the new assignment after the ones already there. *)
Lemma add_series_to_info_dict_valid_key (series_id acq : string) (k : Key)
    (info : Info) :
  (iget info k = None ->
   add_series_to_info_dict series_id (KTuple k) (Some info) acq
   = OK (RetNone, Some (info ++ [(k, [new_entry series_id acq])])%list))
  /\ (forall l, iget info k = Some l ->
      exists info',
        add_series_to_info_dict series_id (KTuple k) (Some info) acq
        = OK (RetNone, Some info')
        /\ iget info' k = Some (l ++ [new_entry series_id acq])%list
        /\ forall k', k' <> k -> iget info' k' = iget info k').
Proof.
  split.
  - intro H. simpl. rewrite H. now rewrite setitem_absent.
  - intros l H. simpl. rewrite H. eexists. split; [reflexivity|]. split.
    + apply get_setitem_same.
    + intros k' N. now apply get_setitem_other.
Qed.

(* ================================================================== *)
(** ** Lemmas: clean_up_unneeded_tags_from_info *)

(** The loop body on a key that is present. *)
Lemma clean_up_key_present (k : Key) (info : Info) (v : list Assignment) :
  iget info k = Some v ->
  clean_up_key k info
  = OK (if (List.length v =? 1)%nat
           && PyStr.contains RUN_PLACEHOLDER (template k)
        then renamed info k (without_placeholder k) v
        else if PyStr.contains RUN_01 (template k) && no_second_run k info
        then renamed info k (without_run_01 k) v
        else info).
Proof.
  intro H. unfold clean_up_key, getitem, rename_key, pop, no_second_run.
  rewrite H. simpl.
  destruct ((List.length v =? 1)%nat
            && PyStr.contains RUN_PLACEHOLDER (template k)); [reflexivity|].
  destruct (PyStr.contains RUN_01 (template k)); [|reflexivity].
  simpl. now destruct (in_strings _ (templates info)).
Qed.

Lemma in_strings_templates (t : string) (info : Info) :
  in_strings t (templates info) = true
  <-> exists k, In k (keys info) /\ template k = t.
Proof.
  unfold in_strings, templates. rewrite existsb_exists. split.
  - intros [x [Hin Heq]]. apply in_map_iff in Hin as [k [Hk Hin]].
    apply String.eqb_eq in Heq. exists k. split; congruence.
  - intros [k [Hin Heq]]. exists (template k). split.
    + now apply in_map.
    + apply String.eqb_eq. congruence.
Qed.

Lemma in_keys_renamed (info : Info) (k new_k k' : Key) v :
  In k' (keys (renamed info k new_k v))
  <-> k' = new_k \/ (k' <> k /\ In k' (keys info)).
Proof. unfold renamed. now rewrite in_keys_setitem, in_keys_remove. Qed.

Lemma get_renamed_other (info : Info) (k new_k k' : Key) v :
  k' <> k -> k' <> new_k -> iget (renamed info k new_k v) k' = iget info k'.
Proof.
  intros N1 N2. unfold renamed.
  rewrite get_setitem_other by assumption. now apply get_remove_other.
Qed.

Lemma settled_clean_up_key (info : Info) (k : Key) :
  In k (keys info) -> settled info k -> clean_up_key k info = OK info.
Proof.
  intros Hin Hs. apply (in_keys_get Key_eq_dec) in Hin as [v Hv].
  rewrite (clean_up_key_present _ _ _ Hv).
  destruct (Hs v Hv) as [H1 H2]. now rewrite H1, H2.
Qed.

Lemma clean_up_loop_fixed (ks : list Key) (info : Info) :
  (forall k, In k ks -> clean_up_key k info = OK info) ->
  clean_up_loop ks info = OK info.
Proof.
  induction ks as [|k ks IH]; intro H; simpl; [reflexivity|].
  rewrite (H k (or_introl eq_refl)). simpl.
  apply IH. intros k' Hk'. apply H. now right.
Qed.

Lemma run_free_settled (info : Info) (k : Key) :
  run_free (template k) = true -> settled info k.
Proof.
  unfold run_free. intros H v _.
  apply andb_true_iff in H as [H1 H2].
  apply negb_true_iff in H1, H2. rewrite H1, H2.
  now rewrite andb_false_r.
Qed.

Lemma run_free_separable (t : string) :
  run_free t = true -> separable t = true.
Proof.
  unfold run_free, separable. intro H.
  apply andb_true_iff in H as [H1 H2].
  apply negb_true_iff in H1, H2. now rewrite H1, H2.
Qed.

(** Renaming a key that carries a run tag into one that carries none keeps
    every other separable key settled. *)
Lemma settled_renamed (info : Info) (k2 new_k k : Key) v2 :
  run_free (template k2) = false ->
  run_free (template new_k) = true ->
  k <> k2 ->
  separable (template k) = true ->
  settled info k ->
  settled (renamed info k2 new_k v2) k.
Proof.
  intros Hk2 Hnew Nk Hsep Hs.
  destruct (run_free (template k)) eqn:Hrf.
  { now apply run_free_settled. }
  assert (Nnew : k <> new_k) by (intro E; subst k; congruence).
  intros v Hv. rewrite get_renamed_other in Hv by assumption.
  destruct (Hs v Hv) as [H1 H2]. split; [assumption|].
  destruct (PyStr.contains RUN_01 (template k)) eqn:H01; [|reflexivity].
  simpl in *. unfold no_second_run in *.
  apply negb_false_iff in H2. apply negb_false_iff.
  apply in_strings_templates in H2 as [k3 [Hin3 Ht3]].
  apply in_strings_templates. exists k3. split; [|assumption].
  apply in_keys_renamed. right. split; [|assumption].
  intro E. subst k3.
  unfold separable in Hsep. rewrite H01 in Hsep.
  destruct (PyStr.contains RUN_PLACEHOLDER (template k)); [discriminate|].
  apply andb_true_iff in Hsep as [_ Hsep]. congruence.
Qed.

Lemma clean_up_inv_renamed (k2 new_k : Key) (ks : list Key) (info : Info) v2 :
  clean_up_inv (k2 :: ks) info ->
  run_free (template k2) = false ->
  run_free (template new_k) = true ->
  clean_up_inv ks (renamed info k2 new_k v2).
Proof.
  intros [Hp Hn Hsep Hset] Hk2 Hnew. inversion Hn as [|? ? Hnotin Hn']; subst.
  constructor.
  - intros k Hk. apply in_keys_renamed. right. split.
    + intro E. subst k. contradiction.
    + apply Hp. now right.
  - assumption.
  - intros k Hk. apply in_keys_renamed in Hk as [E|[_ Hk]].
    + subst k. now apply run_free_separable.
    + now apply Hsep.
  - intros k Hk Hnk. apply in_keys_renamed in Hk as [E|[N Hk]].
    + subst k. now apply run_free_settled.
    + apply settled_renamed; auto.
      apply Hset; [assumption|]. intros [E|H]; [congruence|contradiction].
Qed.

Lemma clean_up_loop_settles (ks : list Key) :
  forall info, clean_up_inv ks info ->
    exists info', clean_up_loop ks info = OK info'
                  /\ forall k, In k (keys info') -> settled info' k.
Proof.
  induction ks as [|k2 ks IH]; intros info Hinv; simpl.
  - exists info. split; [reflexivity|].
    intros k Hk. apply (inv_settled _ _ Hinv); auto.
  - assert (Hin : In k2 (keys info))
      by (apply (inv_present _ _ Hinv); now left).
    assert (Hsep2 := inv_separable _ _ Hinv _ Hin).
    apply (in_keys_get Key_eq_dec) in Hin as [v2 Hv2].
    rewrite (clean_up_key_present _ _ _ Hv2). simpl.
    unfold separable in Hsep2.
    destruct ((List.length v2 =? 1)%nat
              && PyStr.contains RUN_PLACEHOLDER (template k2)) eqn:C1.
    { apply IH. apply andb_true_iff in C1 as [_ C1]. rewrite C1 in Hsep2.
      apply andb_true_iff in Hsep2 as [_ Hsep2].
      apply clean_up_inv_renamed; auto.
      unfold run_free. now rewrite C1. }
    destruct (PyStr.contains RUN_01 (template k2) && no_second_run k2 info)
      eqn:C2.
    { apply IH. apply andb_true_iff in C2 as [C2 _].
      apply clean_up_inv_renamed; auto.
      - unfold run_free. rewrite C2. apply andb_false_r.
      - rewrite C2 in Hsep2.
        destruct (PyStr.contains RUN_PLACEHOLDER (template k2));
          [discriminate|].
        now apply andb_true_iff in Hsep2 as [Hsep2 _]. }
    apply IH. destruct Hinv as [Hp Hn Hsep Hset].
    inversion Hn as [|? ? Hnotin Hn']; subst. constructor; auto.
    + intros k Hk. apply Hp. now right.
    + intros k Hk Hnk. destruct (Key_eq_dec k k2) as [E|N].
      * subst k. intros v Hv. rewrite Hv2 in Hv. inversion Hv; subst v.
        now split.
      * apply Hset; [assumption|]. intros [E|H]; [congruence|contradiction].
Qed.

(* ================================================================== *)
(** ** Theorems: clean_up_unneeded_tags_from_info *)

(** C3 (as stated, refuted).  On a map whose only key carries both the
    literal first run and the run placeholder, the second pass renames the
    key the first pass produced. *)
Lemma clean_up_twice_differs :
  exists M1 M2,
    clean_up_unneeded_tags_from_info nested_tags = OK M1
    /\ clean_up_unneeded_tags_from_info M1 = OK M2
    /\ ~ dict_equal Key_eq_dec M2 M1.
Proof.
  eexists. eexists. split; [reflexivity|]. split; [reflexivity|].
  intro H. specialize (H (func_key "func/task-rest_bold")).
  discriminate H.
Qed.

(** C3 (amended).  On every map whose key templates are separable (at most
    one kind of run tag, none left after erasing or renumbering it), the
    cleanup pass returns and running it again on its output changes
    nothing. *)
Theorem clean_up_idempotent (M : Info) :
  NoDup (keys M) ->
  separable_keys M ->
  exists M1,
    clean_up_unneeded_tags_from_info M = OK M1
    /\ clean_up_unneeded_tags_from_info M1 = OK M1.
Proof.
  intros Hnd Hsep. unfold clean_up_unneeded_tags_from_info.
  destruct (clean_up_loop_settles (keys M) M) as [M1 [H1 Hset]].
  { constructor; auto.
    - intros k Hk. unfold separable_keys in Hsep.
      rewrite Forall_forall in Hsep. now apply Hsep.
    - intros k Hk Hnk. contradiction. }
  exists M1. split; [assumption|].
  apply clean_up_loop_fixed. intros k Hk.
  apply settled_clean_up_key; auto.
Qed.

Lemma clean_up_idempotent_witness :
  NoDup (keys typical_info) /\ separable_keys typical_info
  /\ exists M1,
       clean_up_unneeded_tags_from_info typical_info = OK M1
       /\ clean_up_unneeded_tags_from_info M1 = OK M1.
Proof.
  assert (Hnd : NoDup (keys typical_info)).
  { unfold typical_info, keys; simpl.
    repeat (constructor; [simpl; intuition discriminate|]). constructor. }
  assert (Hsep : separable_keys typical_info).
  { unfold separable_keys, typical_info, keys; simpl.
    repeat (constructor; [reflexivity|]). constructor. }
  split; [exact Hnd|]. split; [exact Hsep|].
  exact (clean_up_idempotent typical_info Hnd Hsep).
Defined.

(** C5 (as stated, refuted).  A key with two assignments is renamed: the
    first-run rewrite does not look at the number of assignments. *)
Lemma clean_up_renames_longer_sequence :
  exists v M',
    iget first_run_twice (func_key "func/task-rest_run-01_bold") = Some v
    /\ List.length v = 2%nat
    /\ clean_up_unneeded_tags_from_info first_run_twice = OK M'
    /\ iget M' (func_key "func/task-rest_run-01_bold") = None
    /\ iget M' (func_key "func/task-rest_bold") = Some v.
Proof. eexists. eexists. repeat split; reflexivity. Qed.

Lemma clean_up_loop_keeps (k : Key) (v : list Assignment) (ks : list Key) :
  List.length v <> 1%nat ->
  PyStr.contains RUN_01 (template k) = false ->
  forall info,
    (forall k2, In k2 ks -> In k2 (keys info)) ->
    NoDup ks ->
    iget info k = Some v ->
    (forall k2, In k2 ks -> k2 <> k ->
       without_placeholder k2 <> k /\ without_run_01 k2 <> k) ->
    exists info', clean_up_loop ks info = OK info' /\ iget info' k = Some v.
Proof.
  intros Hlen H01. induction ks as [|k2 ks IH]; intros info Hp Hn Hk Hcol.
  - exists info. now split.
  - simpl. inversion Hn as [|? ? Hnotin Hn']; subst.
    assert (Hin : In k2 (keys info)) by (apply Hp; now left).
    apply (in_keys_get Key_eq_dec) in Hin as [v2 Hv2].
    rewrite (clean_up_key_present _ _ _ Hv2). simpl.
    assert (Hrest : forall new_k, new_k <> k -> k2 <> k ->
              exists info',
                clean_up_loop ks (renamed info k2 new_k v2) = OK info'
                /\ iget info' k = Some v).
    { intros new_k Nnew N2. apply IH; auto.
      - intros k3 Hk3. apply in_keys_renamed. right. split.
        + intro E. subst k3. contradiction.
        + apply Hp. now right.
      - rewrite get_renamed_other; auto.
      - intros k3 Hk3. apply Hcol. now right. }
    assert (Hsame : exists info',
              clean_up_loop ks info = OK info' /\ iget info' k = Some v).
    { apply IH; auto.
      - intros k3 Hk3. apply Hp. now right.
      - intros k3 Hk3. apply Hcol. now right. }
    destruct (Key_eq_dec k2 k) as [E|N].
    + subst k2. rewrite Hk in Hv2. inversion Hv2; subst v2.
      apply Nat.eqb_neq in Hlen. rewrite Hlen, H01. exact Hsame.
    + destruct (Hcol k2 (or_introl eq_refl) N) as [Np N1].
      destruct ((List.length v2 =? 1)%nat
                && PyStr.contains RUN_PLACEHOLDER (template k2));
        [now apply Hrest|].
      destruct (PyStr.contains RUN_01 (template k2) && no_second_run k2 info);
        [now apply Hrest | exact Hsame].
Qed.

(* ================================================================== *)
(** ** Lemmas: sort_seqinfo_by_series_date_time *)

Lemma fold_left_preserves {A B : Type} (P : A -> Prop) (f : A -> B -> A)
    (l : list B) :
  (forall a b, In b l -> P a -> P (f a b)) ->
  forall a, P a -> P (fold_left f l a).
Proof.
  induction l as [|b l IH]; intros Hf a Ha; simpl; [assumption|].
  apply IH.
  - intros a' b' Hb'. apply Hf. now right.
  - apply Hf; [now left | assumption].
Qed.

(** The trailing loop only appends: records of [l] that are not there yet. *)
Lemma append_if_absent_all (l : list SeriesRecord) :
  forall acc, exists rest,
    fold_left append_if_absent l acc = (acc ++ rest)%list
    /\ (forall r, In r rest -> In r l /\ ~ In r acc)
    /\ (forall r, In r l -> In r (acc ++ rest)%list).
Proof.
  induction l as [|x l IH]; intro acc; simpl.
  - exists []. rewrite app_nil_r. split; [reflexivity|]. split; intros r [].
  - unfold append_if_absent at 2.
    destruct (in_dec SeriesRecord_eq_dec x acc) as [Hin|Hnin].
    + destruct (IH acc) as [rest [E [H1 H2]]]. exists rest.
      split; [assumption|]. split.
      * intros r Hr. destruct (H1 r Hr). auto.
      * intros r [Hr|Hr]; [subst r; apply in_or_app; now left | auto].
    + destruct (IH (acc ++ [x])%list) as [rest [E [H1 H2]]].
      exists (x :: rest). split; [|split].
      * rewrite E. now rewrite <- app_assoc.
      * intros r [Hr|Hr].
        -- subst r. auto.
        -- destruct (H1 r Hr) as [Ha Hb]. split; [now right|].
           intro Hc. apply Hb. apply in_or_app. now left.
      * intros r [Hr|Hr].
        -- subst r. apply in_or_app. right. now left.
        -- specialize (H2 r Hr). rewrite <- app_assoc in H2. exact H2.
Qed.

Lemma in_insert_sorted (x y : string) (l : list string) :
  In y (insert_sorted x l) <-> y = x \/ In y l.
Proof.
  induction l as [|z l IH]; simpl.
  - intuition.
  - destruct (String.leb x z); simpl; [intuition|].
    rewrite IH. intuition.
Qed.

Lemma in_sorted (y : string) (l : list string) : In y (sorted l) <-> In y l.
Proof.
  induction l as [|x l IH]; simpl; [tauto|].
  rewrite in_insert_sorted, IH. intuition.
Qed.

Lemma in_series_at (seqinfo : list SeriesRecord) (dt : string) (s : SeriesRecord) :
  In s (series_at seqinfo dt)
  <-> In s seqinfo /\ has_date_time s = true /\ date_time s = dt.
Proof.
  unfold series_at. rewrite filter_In, andb_true_iff, String.eqb_eq. tauto.
Qed.

Lemma append_date_time_timed (seqinfo acc : list SeriesRecord) (dt : string) :
  all_timed acc -> all_timed (append_date_time seqinfo acc dt).
Proof.
  intro Hacc. unfold append_date_time.
  apply fold_left_preserves.
  - intros a b Hb Ha. unfold append_if_absent.
    destruct (in_dec SeriesRecord_eq_dec b a); [assumption|].
    apply Forall_app. split; [assumption|]. constructor; [|constructor].
    now apply in_series_at in Hb as [_ [Hb _]].
  - apply fold_left_preserves; [|assumption].
    intros a sid _ Ha. unfold append_by_uid. apply Forall_app.
    split; [assumption|]. apply Forall_forall. intros r Hr.
    apply filter_In in Hr as [Hr _].
    now apply in_series_at in Hr as [_ [Hr _]].
Qed.

Lemma timed_part_timed (seqinfo : list SeriesRecord) :
  all_timed (timed_part seqinfo).
Proof.
  unfold timed_part. apply fold_left_preserves; [|constructor].
  intros a dt _ Ha. now apply append_date_time_timed.
Qed.

Lemma append_date_time_grows (seqinfo acc : list SeriesRecord) (dt : string)
    (s : SeriesRecord) :
  In s acc -> In s (append_date_time seqinfo acc dt).
Proof.
  intro Hs. unfold append_date_time.
  match goal with
  | |- In s (fold_left append_if_absent ?l ?a) =>
      destruct (append_if_absent_all l a) as [rest [E _]]; rewrite E
  end.
  apply in_or_app. left.
  apply (fold_left_preserves (fun a => In s a)); [|assumption].
  intros a sid _ Ha. unfold append_by_uid. apply in_or_app. now left.
Qed.

Lemma append_date_time_places (seqinfo acc : list SeriesRecord)
    (s : SeriesRecord) :
  In s seqinfo -> has_date_time s = true ->
  In s (append_date_time seqinfo acc (date_time s)).
Proof.
  intros Hin Hdt. unfold append_date_time.
  match goal with
  | |- In s (fold_left append_if_absent ?l ?a) =>
      destruct (append_if_absent_all l a) as [rest [E [_ H]]]; rewrite E
  end.
  apply H. now apply in_series_at.
Qed.

Lemma fold_append_date_time_places (seqinfo : list SeriesRecord)
    (s : SeriesRecord) (dts : list string) :
  In s seqinfo -> has_date_time s = true ->
  forall acc, In (date_time s) dts \/ In s acc ->
    In s (fold_left (append_date_time seqinfo) dts acc).
Proof.
  intros Hin Hdt. induction dts as [|dt dts IH]; intros acc H; simpl.
  - destruct H as [[]|H]. exact H.
  - apply IH. destruct H as [[E|H]|H].
    + right. subst dt. now apply append_date_time_places.
    + now left.
    + right. now apply append_date_time_grows.
Qed.

(** Every record with a date and a time is placed by the first loop. *)
Lemma timed_part_complete (seqinfo : list SeriesRecord) (s : SeriesRecord) :
  In s seqinfo -> has_date_time s = true -> In s (timed_part seqinfo).
Proof.
  intros Hin Hdt. unfold timed_part.
  apply fold_append_date_time_places; auto.
  left. unfold sorted_set. apply in_sorted. apply nodup_In.
  apply in_map. apply filter_In. now split.
Qed.

(** The output is the dated and timed records followed by the others. *)
Lemma sort_splits (seqinfo : list SeriesRecord) :
  exists rest,
    sort_seqinfo_by_series_date_time seqinfo
    = (timed_part seqinfo ++ rest)%list
    /\ Forall (fun s => has_date_time s = false) rest.
Proof.
  unfold sort_seqinfo_by_series_date_time.
  destruct (append_if_absent_all seqinfo (timed_part seqinfo))
    as [rest [E [H _]]].
  exists rest. split; [assumption|].
  apply Forall_forall. intros r Hr. destruct (H r Hr) as [Hin Hnot].
  destruct (has_date_time r) eqn:Hdt; [|reflexivity].
  exfalso. apply Hnot. now apply timed_part_complete.
Qed.

(* ================================================================== *)
(** ** Theorems: sort_seqinfo_by_series_date_time *)

(** C6 (as stated, refuted).  A record with neither date nor time stays in
    front of a record that has a date but no time. *)
Lemma undated_before_date_only :
  sort_seqinfo_by_series_date_time [undated; date_only] = [undated; date_only]
  /\ ~ all_after lacks_date_and_time has_date_or_time
         (sort_seqinfo_by_series_date_time [undated; date_only]).
Proof.
  split; [reflexivity|]. intro H.
  specialize (H 0%nat 1%nat undated date_only eq_refl eq_refl eq_refl eq_refl).
  lia.
Qed.

(** C6 (amended).  In the output, every record that lacks a date or a time,
    and so every record with neither, stands after every record that has
    both a date and a time. *)
Theorem sort_places_untimed_last (seqinfo : list SeriesRecord) :
  all_after (fun s => negb (has_date_time s)) has_date_time
    (sort_seqinfo_by_series_date_time seqinfo)
  /\ all_after lacks_date_and_time has_date_time
       (sort_seqinfo_by_series_date_time seqinfo).
Proof.
  destruct (sort_splits seqinfo) as [rest [E Hrest]].
  assert (Htimed := timed_part_timed seqinfo). unfold all_timed in Htimed.
  rewrite Forall_forall in Htimed, Hrest.
  assert (H : all_after (fun s => negb (has_date_time s)) has_date_time
                (sort_seqinfo_by_series_date_time seqinfo)).
  { intros i j r1 r2 H1 H2 Hlate Hearly. rewrite E in H1, H2.
    apply negb_true_iff in Hlate.
    destruct (Nat.lt_ge_cases i (List.length (timed_part seqinfo))) as [Hi|Hi].
    { rewrite nth_error_app1 in H1 by assumption.
      apply nth_error_In in H1. apply Htimed in H1. congruence. }
    destruct (Nat.lt_ge_cases j (List.length (timed_part seqinfo))) as [Hj|Hj].
    { lia. }
    rewrite nth_error_app2 in H2 by assumption.
    apply nth_error_In in H2. apply Hrest in H2. congruence. }
  split; [exact H|].
  intros i j r1 r2 H1 H2 Hlate Hearly. apply (H i j r1 r2); auto.
  unfold lacks_date_and_time in Hlate. unfold has_date_time.
  apply andb_true_iff in Hlate as [Hd _]. apply negb_true_iff in Hd.
  now rewrite Hd.
Qed.

(* ================================================================== *)
(** ** Lemmas: the cascade *)

Lemma append_to_present (info : Info) (k : Key) (a : Assignment) :
  In k (keys info) -> append_to info k a = OK (dict_append info k a).
Proof.
  intro Hin. apply (in_keys_get Key_eq_dec) in Hin as [l Hl].
  unfold append_to, dict_append, getitem. now rewrite Hl.
Qed.

Lemma append_to_returns (info info' : Info) (k : Key) (a : Assignment) :
  append_to info k a = OK info' -> info' = dict_append info k a.
Proof.
  unfold append_to, dict_append, getitem.
  destruct (iget info k); simpl; congruence.
Qed.

Lemma add_series_appends (series_id : string) (k : Key) (info : Info) :
  add_series series_id k info
  = OK (dict_append info k (mkAssignment series_id None)).
Proof.
  unfold add_series, dict_append. simpl.
  now destruct (iget info k).
Qed.

Lemma registered_dict_append (info : Info) (k : Key) (a : Assignment) :
  registered info (dict_append info k a) k a.
Proof.
  unfold registered, dict_append.
  destruct (iget info k); apply get_setitem_same.
Qed.

Lemma get_dict_append_other (info : Info) (k k' : Key) (a : Assignment) :
  k' <> k -> iget (dict_append info k a) k' = iget info k'.
Proof.
  intro N. unfold dict_append.
  destruct (iget info k); now apply get_setitem_other.
Qed.

Lemma in_keys_dict_append (info : Info) (k k' : Key) (a : Assignment) :
  In k' (keys info) -> In k' (keys (dict_append info k a)).
Proof.
  intro H. unfold dict_append.
  destruct (iget info k); apply in_keys_setitem; now right.
Qed.

Lemma registered_then_other (info info' : Info) (k k' : Key)
    (a a' : Assignment) :
  k <> k' -> registered info info' k a ->
  registered info (dict_append info' k' a') k a.
Proof.
  intros N H. unfold registered in *. now rewrite get_dict_append_other.
Qed.

(** [seqinfo[idx - 1]] exists for the index of a record of [seqinfo]: the
    record before it, or the last record when [idx] is 0. *)
Lemma index_int_previous (seqinfo : list SeriesRecord) (idx : nat)
    (s : SeriesRecord) :
  nth_error seqinfo idx = Some s ->
  exists prev, index_int seqinfo (Z.of_nat idx - 1) = OK prev.
Proof.
  intro H. assert (Hlt : (idx < List.length seqinfo)%nat).
  { apply nth_error_Some. congruence. }
  unfold index_int, PyStr.index.
  destruct (Z.of_nat idx - 1 <? 0)%Z eqn:Hneg.
  - apply Z.ltb_lt in Hneg.
    destruct (Z.of_nat idx - 1 + Z.of_nat (List.length seqinfo) <? 0)%Z eqn:Hn.
    { apply Z.ltb_lt in Hn. lia. }
    match goal with
    | |- context [nth_error seqinfo ?n] => destruct (nth_error seqinfo n) eqn:E
    end; [eauto|].
    apply nth_error_None in E. lia.
  - apply Z.ltb_ge in Hneg.
    match goal with
    | |- context [nth_error seqinfo ?n] => destruct (nth_error seqinfo n) eqn:E
    end; [eauto|].
    apply nth_error_None in E. lia.
Qed.

(** Where every earlier condition of the second chain fails, the chain runs
    the diffusion branch. *)
Lemma t2w_chain_diffusion (g : Globals) (K : StaticKeys)
    (seqinfo : list SeriesRecord) (idx : nat) (s : SeriesRecord)
    (info : Info) (rn : RunNumbers) :
  reaches_diffusion s = true ->
  t2w_chain g K seqinfo idx s (info, rn)
  = (info' <- diffusion g K seqinfo idx s info ;; OK (info', rn)).
Proof.
  unfold reaches_diffusion. intro H.
  repeat (apply andb_true_iff in H; destruct H as [H ?]).
  repeat match goal with
         | Hn : negb _ = true |- _ => apply negb_true_iff in Hn
         end.
  unfold t2w_chain.
  repeat match goal with
         | Hn : ?c = _ |- _ => rewrite Hn; clear Hn
         end.
  reflexivity.
Qed.

(* ================================================================== *)
(** ** Theorems: the diffusion branch *)

(** C7 (as stated, refuted).  A diffusion series of exactly five volumes is
    registered as a standard diffusion acquisition labelled "5vols", and no
    diffusion field-map key is created. *)
Lemma five_volumes_is_diffusion :
  exists K kf info',
    static_keys = OK K
    /\ create_key "fmap" (diffusion_fmap_suffix "") = OK kf
    /\ reaches_diffusion diffusion_5vols = true
    /\ (dim4 diffusion_5vols <= 5)%Z
    /\ t2w_chain bound_globals K [diffusion_5vols] 0 diffusion_5vols
         (initial_info K, []) = OK (info', [])
    /\ registered (initial_info K) info' (dwi K)
         (mkAssignment "9" (Some "5vols"))
    /\ iget info' kf = None.
Proof.
  eexists. eexists. eexists.
  split; [reflexivity|]. split; [reflexivity|]. split; [reflexivity|].
  split; [discriminate|]. split; [reflexivity|]. split; reflexivity.
Qed.

(** C7 (amended).  Where the environment binds [direction] and
    [previous_series_is_sbref], a record of the list that reaches the
    diffusion condition is registered, when it has five volumes or more,
    under the diffusion key with the label "<n>vols", and when it has fewer
    than five, under the diffusion field-map key of the direction label (or
    "normal"), the diffusion key being left as it was. *)
Theorem diffusion_by_volume_count (g : Globals) (K : StaticKeys)
    (seqinfo : list SeriesRecord) (idx : nat) (s : SeriesRecord)
    (info : Info) (rn : RunNumbers) (d : string)
    (sbref : list SeriesRecord -> nat -> bool) :
  static_keys = OK K ->
  direction g = Some d ->
  previous_series_is_sbref g = Some sbref ->
  nth_error seqinfo idx = Some s ->
  reaches_diffusion s = true ->
  In (dwi K) (keys info) ->
  In (dwi_sbref K) (keys info) ->
  exists info',
    t2w_chain g K seqinfo idx s (info, rn) = OK (info', rn)
    /\ ((5 <= dim4 s)%Z ->
        registered info info' (dwi K)
          (mkAssignment (series_id s)
             (Some (PyStr.str_of_int (dim4 s) ++ "vols"))))
    /\ ((dim4 s < 5)%Z ->
        exists kf,
          create_key "fmap" (diffusion_fmap_suffix d) = OK kf
          /\ registered info info' kf (mkAssignment (series_id s) None)
          /\ iget info' (dwi K) = iget info (dwi K)).
Proof.
  intros HK Hd Hs Hnth Hreach Hdwi Hsb.
  rewrite t2w_chain_diffusion by assumption.
  destruct (index_int_previous _ _ _ Hnth) as [prev Hprev].
  vm_compute in HK. injection HK as <-. cbn [dwi dwi_sbref] in *.
  unfold diffusion. cbn [dwi dwi_sbref].
  destruct (dim4 s >=? 5)%Z eqn:Hv.
  - apply Z.geb_le in Hv.
    rewrite append_to_present by assumption. cbn [bind].
    rewrite Hs. cbn [bind global].
    match goal with
    | |- context [dict_append info ?k ?a] =>
        assert (Hreg := registered_dict_append info k a);
        assert (Hin := in_keys_dict_append info k _ a Hsb)
    end.
    destruct (sbref seqinfo idx).
    + rewrite Hprev. cbn [bind].
      destruct (PyStr.contains "epse2d" (sequence_name prev)).
      * rewrite append_to_present by assumption. cbn [bind].
        eexists. split; [reflexivity|]. split; [|intro; lia].
        intros _. apply registered_then_other; [discriminate|exact Hreg].
      * cbn [bind]. eexists. split; [reflexivity|].
        split; [intros _; exact Hreg | intro; lia].
    + cbn [bind]. eexists. split; [reflexivity|].
      split; [intros _; exact Hreg | intro; lia].
  - rewrite Z.geb_leb in Hv. apply Z.leb_gt in Hv.
    unfold direction_or_normal. rewrite Hd. cbn [bind global].
    unfold diffusion_fmap_suffix.
    set (run_dir := if PyStr.nonempty d then d else "normal").
    unfold create_key, create_key_dicom, create_key_full.
    cbn [PyStr.nonempty negb bind].
    rewrite !add_series_appends. cbn [bind]. rewrite Hs. cbn [bind global].
    match goal with
    | |- context [dict_append info ?k ?a] =>
        assert (Hreg := registered_dict_append info k a);
        assert (Hother : iget (dict_append info k a)
                           (mkKey "{bids_subject_session_dir}/dwi/{bids_subject_session_prefix}_acq-{acq}_run-{item:02d}_dwi"
                              ["nii.gz"; "dicom"] None)
                         = iget info
                             (mkKey "{bids_subject_session_dir}/dwi/{bids_subject_session_prefix}_acq-{acq}_run-{item:02d}_dwi"
                                ["nii.gz"; "dicom"] None))
          by (apply get_dict_append_other; vm_compute; discriminate)
    end.
    destruct (sbref seqinfo idx).
    + rewrite Hprev. cbn [bind]. rewrite add_series_appends.
      eexists. split; [reflexivity|]. split; [intro; lia|].
      intros _. eexists. split; [reflexivity|]. split.
      * apply registered_then_other; [discriminate|exact Hreg].
      * rewrite get_dict_append_other by (vm_compute; discriminate).
        exact Hother.
    + eexists. split; [reflexivity|]. split; [intro; lia|].
      intros _. eexists. split; [reflexivity|]. split; assumption.
Qed.

(* ================================================================== *)
(** ** Lemmas: what one loop step adds *)

Lemma adds_none (paired : SeriesRecord -> Prop) (s : SeriesRecord)
    (info : Info) :
  adds paired s info info.
Proof. exists [], []. simpl. repeat split; auto. Qed.

Lemma adds_one (paired : SeriesRecord -> Prop) (s : SeriesRecord)
    (info : Info) (k : Key) (a : Assignment) :
  item a = series_id s -> adds paired s info (dict_append info k a).
Proof.
  intro H. exists [(k, a)], []. simpl. repeat split; auto.
Qed.

Lemma adds_two (paired : SeriesRecord -> Prop) (s r : SeriesRecord)
    (info : Info) (k k' : Key) (a a' : Assignment) :
  item a = series_id s ->
  paired r -> item a' = series_id r ->
  adds paired s info (dict_append (dict_append info k a) k' a').
Proof.
  intros H Hr H'. exists [(k, a)], [(k', a')]. simpl.
  repeat split; auto. constructor; [|constructor]. exists r. now split.
Qed.

(** A step that pairs the record with no other record, or with a record of
    a kind, also is a step that pairs it with a record of a wider kind. *)
Lemma adds_mono (paired paired' : SeriesRecord -> Prop) (s : SeriesRecord)
    (info info' : Info) :
  (forall r, paired r -> paired' r) ->
  adds paired s info info' -> adds paired' s info info'.
Proof.
  intros Hp [own [other [H1 [H2 [H3 [H4 H5]]]]]].
  exists own, other. repeat split; auto.
  apply Forall_forall. intros ka Hka. rewrite Forall_forall in H4.
  destruct (H4 ka Hka) as [r [Hr E]]. exists r. split; auto.
Qed.

Create HintDb cascade.

#[local] Hint Resolve adds_none adds_one : cascade.

(** Case analysis on a branch that returned: every test and every call that
    can raise is split, and a successful append is replaced by its result. *)
Ltac split_branch H :=
  repeat first
    [ progress cbn [bind global] in H
    | match type of H with
      | Raise _ = OK _ => discriminate H
      | context [append_to ?i ?k ?a] =>
          let E := fresh "E" in
          destruct (append_to i k a) eqn:E;
          [apply append_to_returns in E; subst | ]
      | context [add_series ?sid ?k ?i] => rewrite add_series_appends in H
      | context [global ?x] => destruct x
      | context [create_key ?a ?b] =>
          let E := fresh "E" in destruct (create_key a b) eqn:E
      | context [create_key_dicom ?a ?b] =>
          let E := fresh "E" in destruct (create_key_dicom a b) eqn:E
      | context [index_int ?l ?i] =>
          let E := fresh "E" in destruct (index_int l i) eqn:E
      | context [PyStr.index ?l ?i] =>
          let E := fresh "E" in destruct (PyStr.index l i) eqn:E
      | context [if ?b then _ else _] => destruct b
      | context [match ?o with Some _ => _ | None => _ end] => destruct o
      end ].

(** What is left after [split_branch]: no append, an append of the record,
    or an append of the record and one of the record a read produced. *)
Ltac adds_up :=
  first
    [ solve [auto with cascade]
    | eapply adds_two;
      [ reflexivity
      | cbv beta; first [eassumption | reflexivity]
      | reflexivity ] ].

Lemma highres_t2w_adds (g : Globals) (K : StaticKeys)
    (seqinfo : list SeriesRecord) (idx : nat) (s : SeriesRecord)
    (info info' : Info) :
  highres_t2w g K seqinfo idx s info = OK info' ->
  adds unpaired s info info'.
Proof.
  unfold highres_t2w, unnormalized_duplicate. intro H.
  split_branch H; injection H as <-; adds_up.
Qed.

Lemma gre_fieldmap_adds (K : StaticKeys) (s : SeriesRecord)
    (info info' : Info) :
  gre_fieldmap K s info = OK info' -> adds unpaired s info info'.
Proof.
  unfold gre_fieldmap. intro H.
  split_branch H; injection H as <-; adds_up.
Qed.

(** The spin-echo branch pairs the record with the record after it. *)
Lemma se_fieldmap_adds (g : Globals) (seqinfo : list SeriesRecord)
    (idx : nat) (s : SeriesRecord) (info info' : Info) :
  se_fieldmap g seqinfo idx s info = OK info' ->
  adds (fun r => nth_error seqinfo (idx + 1) = Some r) s info info'.
Proof.
  unfold se_fieldmap, direction_or_normal. intro H.
  destruct (nth_error seqinfo (idx + 1)) as [next|] eqn:En;
    split_branch H; injection H as <-; adds_up.
Qed.

(** The diffusion branch pairs the record with the record before it. *)
Lemma diffusion_adds (g : Globals) (K : StaticKeys)
    (seqinfo : list SeriesRecord) (idx : nat) (s : SeriesRecord)
    (info info' : Info) :
  diffusion g K seqinfo idx s info = OK info' ->
  adds (fun r => index_int seqinfo (Z.of_nat idx - 1) = OK r) s info info'.
Proof.
  unfold diffusion, direction_or_normal. intro H.
  split_branch H; injection H as <-; adds_up.
Qed.

Lemma functional_adds (s : SeriesRecord) (info info' : Info)
    (rn rn' : RunNumbers) :
  functional s (info, rn) = OK (info', rn') ->
  adds unpaired s info info'.
Proof.
  unfold functional. intro H.
  destruct (extract_task_name (series_description s)); [|discriminate H].
  cbn [bind] in H.
  destruct (getitem string_dec _ _); [|discriminate H].
  cbn [bind] in H.
  split_branch H; injection H as <- _; adds_up.
Qed.

(** The first chain assigns the record at most once. *)
Lemma t1w_chain_adds (g : Globals) (K : StaticKeys)
    (seqinfo : list SeriesRecord) (idx : nat) (s : SeriesRecord)
    (info info' : Info) :
  t1w_chain g K seqinfo idx s info = OK info' ->
  exists own : list (Key * Assignment),
    (List.length own <= 1)%nat
    /\ Forall (fun ka => item (snd ka) = series_id s) own
    /\ info' = dict_append_all info own.
Proof.
  unfold t1w_chain, unnormalized_duplicate. intro H.
  split_branch H; injection H as <-;
    first [ exists []; simpl; repeat split; auto; fail
          | eexists [(_, _)]; simpl; repeat split; auto ].
Qed.

(** The second chain assigns the record at most once, and at most one
    neighbour with it: the record after a spin-echo field map, the record
    before a diffusion series. *)
Lemma t2w_chain_adds (g : Globals) (K : StaticKeys)
    (seqinfo : list SeriesRecord) (idx : nat) (s : SeriesRecord)
    (info info' : Info) (rn rn' : RunNumbers) :
  t2w_chain g K seqinfo idx s (info, rn) = OK (info', rn') ->
  step_adds seqinfo idx s info info'.
Proof.
  unfold t2w_chain, step_adds. intro H.
  assert (Hnone : forall info0 : Info,
            adds unpaired s info info0 ->
            adds (neighbour seqinfo idx s) s info info0).
  { intro info0. apply adds_mono. intros r []. }
  destruct (is_scout s) eqn:G1.
  { split_branch H; injection H as <- _; adds_up. }
  destruct (is_highres_t2w s) eqn:G2.
  { destruct (highres_t2w g K seqinfo idx s info) eqn:E; [|discriminate H].
    cbn [bind] in H. injection H as <- _.
    apply Hnone. now apply highres_t2w_adds in E. }
  destruct (is_haste s) eqn:G3.
  { split_branch H; injection H as <- _; adds_up. }
  destruct (is_pd_bias s) eqn:G4.
  { split_branch H; injection H as <- _; adds_up. }
  destruct (is_inversion_recovery s) eqn:G5.
  { split_branch H; injection H as <- _; adds_up. }
  destruct (is_variable_fa s) eqn:G6.
  { split_branch H; injection H as <- _; adds_up. }
  destruct (is_functional s) eqn:G7.
  { apply Hnone. now apply functional_adds in H. }
  destruct (is_se_fieldmap s) eqn:G8.
  { destruct (se_fieldmap g seqinfo idx s info) eqn:E; [|discriminate H].
    cbn [bind] in H. injection H as <- _.
    apply se_fieldmap_adds in E. revert E. apply adds_mono.
    intros r Hr. left. split; [|exact Hr].
    unfold reaches_se_fieldmap.
    now rewrite G1, G2, G3, G4, G5, G6, G7, G8. }
  destruct (is_gre_fieldmap s) eqn:G9.
  { destruct (gre_fieldmap K s info) eqn:E; [|discriminate H].
    cbn [bind] in H. injection H as <- _.
    apply Hnone. now apply gre_fieldmap_adds in E. }
  destruct (is_diffusion s) eqn:G10.
  { destruct (diffusion g K seqinfo idx s info) eqn:E; [|discriminate H].
    cbn [bind] in H. injection H as <- _.
    apply diffusion_adds in E. revert E. apply adds_mono.
    intros r Hr. right. split; [|exact Hr].
    unfold reaches_diffusion.
    now rewrite G1, G2, G3, G4, G5, G6, G7, G8, G9, G10. }
  destruct (is_screen_save s) eqn:G11.
  { split_branch H; injection H as <- _; adds_up. }
  injection H as <- _. apply adds_none.
Qed.

(** *** Counting the assignments of a series *)

Lemma count_item_app (sid : string) (l l' : list Assignment) :
  count_item sid (l ++ l')%list = (count_item sid l + count_item sid l')%nat.
Proof. unfold count_item. now rewrite filter_app, length_app. Qed.

Lemma occurrences_setitem_present (sid : string) (d : Info) (k : Key)
    (l v : list Assignment) :
  iget d k = Some l ->
  (occurrences sid (isetitem d k v) + count_item sid l
   = occurrences sid d + count_item sid v)%nat.
Proof.
  unfold occurrences. induction d as [|[k0 v0] r IH]; simpl; [discriminate|].
  destruct (Key_eq_dec k k0); simpl.
  - intro E. injection E as <-. lia.
  - intro E. specialize (IH E). lia.
Qed.

(** An append adds one to the count when it carries [sid], and nothing
    otherwise. *)
Lemma occurrences_dict_append (sid : string) (info : Info) (k : Key)
    (a : Assignment) :
  occurrences sid (dict_append info k a)
  = (occurrences sid info + count_item sid [a])%nat.
Proof.
  unfold dict_append. destruct (iget info k) as [l|] eqn:E.
  - pose proof (occurrences_setitem_present sid info k l (l ++ [a])%list E)
      as H.
    rewrite count_item_app in H. lia.
  - rewrite (setitem_absent Key_eq_dec info k _ E). unfold occurrences.
    rewrite map_app, list_sum_app. simpl. lia.
Qed.

Lemma occurrences_dict_append_all (sid : string)
    (l : list (Key * Assignment)) :
  forall info,
    occurrences sid (dict_append_all info l)
    = (occurrences sid info + count_item sid (map snd l))%nat.
Proof.
  unfold dict_append_all.
  induction l as [|[k a] l IH]; intro info; simpl.
  - unfold count_item. simpl. lia.
  - rewrite IH, occurrences_dict_append.
    change (a :: map snd l) with ([a] ++ map snd l)%list.
    rewrite count_item_app. lia.
Qed.

Lemma count_item_own (sid : string) (own : list (Key * Assignment)) :
  (List.length own <= 1)%nat -> (count_item sid (map snd own) <= 1)%nat.
Proof.
  intro H. unfold count_item.
  pose proof (filter_length_le (fun a => item a =? sid) (map snd own)) as L.
  rewrite length_map in L. lia.
Qed.

Lemma count_item_others (sid : string) (other : list (Key * Assignment)) :
  Forall (fun ka => item (snd ka) <> sid) other ->
  count_item sid (map snd other) = 0%nat.
Proof.
  unfold count_item.
  induction 1 as [|[k a] l Ha Hl IH]; simpl; [reflexivity|].
  simpl in Ha. apply String.eqb_neq in Ha. now rewrite Ha.
Qed.

(* ================================================================== *)
(** ** Theorems: one record, one loop step *)

Lemma static_keys_returns : static_keys = OK the_static_keys.
Proof. vm_compute. reflexivity. Qed.


(** Why a neighbour counts apart.  In a list that holds a single series,
    [seqinfo[idx - 1]] at position 0 is the series itself: where the
    environment reports a preceding reference scan, a diffusion series whose
    sequence name also holds "epse2d" is put under the diffusion key by the
    second chain and, as its own reference scan, under the reference-scan
    key. *)
Lemma diffusion_is_its_own_neighbour :
  neighbour [diffusion_epse2d] 0 diffusion_epse2d diffusion_epse2d
  /\ exists info',
       t2w_chain sbref_globals the_static_keys [diffusion_epse2d] 0
         diffusion_epse2d (initial_info the_static_keys, [])
       = OK (info', [])
       /\ iget info' (dwi the_static_keys)
          = Some [mkAssignment "9" (Some "30vols")]
       /\ iget info' (dwi_sbref the_static_keys)
          = Some [mkAssignment "9" (Some "30vols")]
       /\ dwi the_static_keys <> dwi_sbref the_static_keys.
Proof.
  split; [right; split; reflexivity|].
  exists (match t2w_chain sbref_globals the_static_keys [diffusion_epse2d] 0
                  diffusion_epse2d (initial_info the_static_keys, []) with
          | OK (info', _) => info'
          | Raise _ => []
          end).
  split; [vm_compute; reflexivity|].
  split; [vm_compute; reflexivity|].
  split; [vm_compute; reflexivity|discriminate].
Qed.



Lemma diffusion_by_volume_count_witness :
  static_keys = OK the_static_keys
  /\ reaches_diffusion diffusion_3vols = true
  /\ exists info',
       t2w_chain bound_globals the_static_keys [diffusion_3vols] 0
         diffusion_3vols (initial_info the_static_keys, []) = OK (info', [])
       /\ ((5 <= dim4 diffusion_3vols)%Z ->
           registered (initial_info the_static_keys) info'
             (dwi the_static_keys)
             (mkAssignment (series_id diffusion_3vols)
                (Some (PyStr.str_of_int (dim4 diffusion_3vols) ++ "vols"))))
       /\ ((dim4 diffusion_3vols < 5)%Z ->
           exists kf,
             create_key "fmap" (diffusion_fmap_suffix "") = OK kf
             /\ registered (initial_info the_static_keys) info' kf
                  (mkAssignment (series_id diffusion_3vols) None)
             /\ iget info' (dwi the_static_keys)
                = iget (initial_info the_static_keys) (dwi the_static_keys)).
Proof.
  split; [reflexivity|]. split; [reflexivity|].
  apply (diffusion_by_volume_count bound_globals the_static_keys
           [diffusion_3vols] 0 diffusion_3vols
           (initial_info the_static_keys) [] "" (fun _ _ => false)).
  - reflexivity.
  - reflexivity.
  - reflexivity.
  - reflexivity.
  - reflexivity.
  - vm_compute. tauto.
  - vm_compute. tauto.
Defined.

(* ================================================================== *)
(** ** Lemmas: strings *)

Lemma contains_char_cons (c a : ascii) (r : string) :
  PyStr.contains (String c "") (String a r)
  = (a =? c)%char || PyStr.contains (String c "") r.
Proof.
  simpl. destruct (ascii_dec c a) as [E|N].
  - subst a. rewrite Ascii.eqb_refl. now destruct r.
  - destruct (Ascii.eqb_spec a c) as [E|_]; [congruence|reflexivity].
Qed.

Lemma contains_char_nil (c : ascii) : PyStr.contains (String c "") "" = false.
Proof. reflexivity. Qed.

Lemma contains_char_app (c : ascii) (p q : string) :
  PyStr.contains (String c "") (p ++ q)
  = PyStr.contains (String c "") p || PyStr.contains (String c "") q.
Proof.
  induction p as [|a p IH].
  - reflexivity.
  - change (String a p ++ q) with (String a (p ++ q)).
    rewrite !contains_char_cons, IH. now rewrite orb_assoc.
Qed.

(** The first piece of a split at a character does not contain it, and
    contains no character the whole string does not contain. *)
Lemma split_char_first (c : ascii) (s : string) :
  forall cur, exists p,
    PyStr.index (PyStr.split_from (String c "") 0 cur s) 0 = OK (cur ++ p)
    /\ PyStr.contains (String c "") p = false
    /\ forall d, PyStr.contains (String d "") s = false ->
                 PyStr.contains (String d "") p = false.
Proof.
  induction s as [|a r IH]; intro cur.
  - exists "". simpl. split; [|split; auto].
    unfold PyStr.index. simpl. f_equal.
    clear. induction cur; simpl; congruence.
  - cbn [PyStr.split_from].
    destruct (prefix (String c "") (String a r)) eqn:Hp.
    + exists "". split; [|split; auto].
      unfold PyStr.index. simpl. f_equal.
      clear. induction cur; simpl; congruence.
    + destruct (IH (cur ++ String a "")) as [p [H1 [H2 H3]]].
      exists (String a p). split; [|split].
      * rewrite H1. f_equal. clear.
        induction cur; simpl; congruence.
      * rewrite contains_char_cons, H2.
        simpl in Hp. destruct (ascii_dec c a) as [E|N].
        -- subst. now destruct r.
        -- destruct (Ascii.eqb_spec a c); [congruence|reflexivity].
      * intros d Hd. rewrite contains_char_cons in *.
        apply orb_false_iff in Hd as [Hd1 Hd2]. rewrite Hd1. simpl. auto.
Qed.

(** Erasing a character leaves none of it, and brings no other character. *)
Lemma erase_char (c : ascii) (s : string) :
  PyStr.contains (String c "") (PyStr.replace (String c "") "" s) = false
  /\ forall d, PyStr.contains (String d "") s = false ->
       PyStr.contains (String d "") (PyStr.replace (String c "") "" s) = false.
Proof.
  unfold PyStr.replace. induction s as [|a r [IH1 IH2]].
  - split; auto.
  - cbn [PyStr.replace_from].
    destruct (prefix (String c "") (String a r)) eqn:Hp.
    + split; [simpl; assumption|].
      intros d Hd. rewrite contains_char_cons in Hd.
      apply orb_false_iff in Hd as [_ Hd]. simpl. auto.
    + split.
      * rewrite contains_char_cons, IH1.
        simpl in Hp. destruct (ascii_dec c a) as [E|N].
        -- subst. now destruct r.
        -- destruct (Ascii.eqb_spec a c); [congruence|reflexivity].
      * intros d Hd. rewrite contains_char_cons in *.
        apply orb_false_iff in Hd as [Hd1 Hd2]. rewrite Hd1. simpl. auto.
Qed.
(* ================================================================== *)
(** ** Lemmas: extract_task_name *)

Lemma lower_ascii_idempotent (c : ascii) :
  PyStr.lower_ascii (PyStr.lower_ascii c) = PyStr.lower_ascii c.
Proof. destruct c as [[] [] [] [] [] [] [] []]; reflexivity. Qed.

Lemma lower_idempotent (s : string) : PyStr.lower (PyStr.lower s) = PyStr.lower s.
Proof.
  induction s as [|c s IH]; simpl; [reflexivity|].
  now rewrite lower_ascii_idempotent, IH.
Qed.

(** What the loop over the known tasks leaves in [task_name]. *)
Lemma scan_known_tasks_cases (prot_name : string) :
  (names_known_task prot_name = false
   /\ scan_known_tasks known_tasks prot_name = OK "")
  \/ (names_known_task prot_name = true
      /\ exists t, scan_known_tasks known_tasks prot_name = OK t
                   /\ In t ("lo" :: known_labels)).
Proof.
  unfold names_known_task, known_tasks. cbn [scan_known_tasks existsb].
  repeat match goal with
         | |- context [PyStr.contains ?k prot_name] =>
             destruct (PyStr.contains k prot_name);
             [right; split; [reflexivity|];
              eexists; split; [vm_compute; reflexivity | simpl; tauto] | ]
         end.
  left. split; reflexivity.
Qed.

(** The body of the ['task' in prot_name] branch. *)
Lemma task_branch_no_separator (x t : string) :
  (task_name <-
     match x with
     | EmptyString => Raise IndexError
     | String c r =>
         if (c =? "-")%char || (c =? "_")%char then OK r else OK x
     end ;;
   task_name <- PyStr.index (PyStr.split "_" task_name) 0 ;;
   task_name <- PyStr.index (PyStr.split "-" task_name) 0 ;;
   OK (PyStr.replace " " "" task_name)) = OK t ->
  no_separator t = true.
Proof.
  intro H.
  assert (Hy : exists y,
             (task_name <- PyStr.index (PyStr.split "_" y) 0 ;;
              task_name <- PyStr.index (PyStr.split "-" task_name) 0 ;;
              OK (PyStr.replace " " "" task_name)) = OK t).
  { destruct x as [|c r]; [discriminate H|].
    destruct ((c =? "-")%char || (c =? "_")%char); cbn [bind] in H; eauto. }
  clear H. destruct Hy as [y H].
  unfold PyStr.split in H.
  destruct (split_char_first "_" y "") as [p1 [E1 [N1 _]]].
  rewrite E1 in H. cbn [bind append] in H.
  destruct (split_char_first "-" p1 "") as [p2 [E2 [N2 K2]]].
  rewrite E2 in H. cbn [bind append] in H.
  injection H as <-.
  destruct (erase_char " " p2) as [N3 K3].
  unfold no_separator.
  rewrite N3, (K3 _ N2), (K3 _ (K2 _ N1)). reflexivity.
Qed.

(* ================================================================== *)
(** ** Theorems: extract_task_name, further properties *)

(** X1. A label [extract_task_name] returns never contains an underscore, a
    dash or a space, so it cannot break the ['task-%s_run-%02d_bold'] file
    name it is put into. *)
Theorem extract_task_name_no_separator (prot_name t : string) :
  extract_task_name prot_name = OK t -> no_separator t = true.
Proof.
  unfold extract_task_name.
  destruct (scan_known_tasks_cases (PyStr.lower prot_name))
    as [[_ E]|[_ [k [E Hin]]]]; rewrite E; cbn [bind].
  - cbn [String.eqb Ascii.eqb].
    destruct (PyStr.contains "task" (PyStr.lower prot_name)).
    + destruct (PyStr.index (PyStr.split "task" (PyStr.lower prot_name)) 1)
        as [x|]; [|discriminate].
      cbn [bind]. apply task_branch_no_separator.
    + intro H. injection H as <-. reflexivity.
  - simpl in Hin.
    repeat (destruct Hin as [<-|Hin];
            [intro H; vm_compute in H; injection H as <-; reflexivity|]).
    contradiction.
Qed.

Lemma extract_task_name_no_separator_witness :
  extract_task_name "custom_task-nback_acq1" = OK "nback"
  /\ no_separator "nback" = true.
Proof.
  assert (H : extract_task_name "custom_task-nback_acq1" = OK "nback")
    by reflexivity.
  split; [exact H|].
  exact (extract_task_name_no_separator "custom_task-nback_acq1" "nback" H).
Defined.

(** X2. When the lower-cased name contains one of the known tasks,
    [extract_task_name] returns, and what it returns is one of the ten known
    labels, whatever else the name contains. *)
Theorem extract_task_name_known (prot_name : string) :
  names_known_task (PyStr.lower prot_name) = true ->
  exists t, extract_task_name prot_name = OK t /\ In t known_labels.
Proof.
  intro Hk. unfold extract_task_name.
  destruct (scan_known_tasks_cases (PyStr.lower prot_name))
    as [[Hn _]|[_ [k [E Hin]]]]; [congruence|].
  rewrite E. cbn [bind]. simpl in Hin.
  repeat (destruct Hin as [<-|Hin];
          [eexists; split; [vm_compute; reflexivity | simpl; tauto]|]).
  contradiction.
Qed.

Lemma extract_task_name_known_witness :
  names_known_task (PyStr.lower "LOC bold run 2") = true
  /\ exists t, extract_task_name "LOC bold run 2" = OK t /\ In t known_labels.
Proof.
  assert (H : names_known_task (PyStr.lower "LOC bold run 2") = true)
    by reflexivity.
  split; [exact H|].
  exact (extract_task_name_known "LOC bold run 2" H).
Defined.

(** X3. [extract_task_name] does not depend on the case of the name: the
    name and its lower-cased form give the same result, error included. *)
Theorem extract_task_name_ignores_case (prot_name : string) :
  extract_task_name (PyStr.lower prot_name) = extract_task_name prot_name.
Proof. unfold extract_task_name. now rewrite lower_idempotent. Qed.

(** X4. The only exception [extract_task_name] raises is IndexError, and it
    raises it only on a name that contains no known task and contains
    "task". *)
Theorem extract_task_name_raises_only (prot_name : string) (e : exn) :
  extract_task_name prot_name = Raise e ->
  e = IndexError
  /\ names_known_task (PyStr.lower prot_name) = false
  /\ PyStr.contains "task" (PyStr.lower prot_name) = true.
Proof.
  unfold extract_task_name.
  destruct (scan_known_tasks_cases (PyStr.lower prot_name))
    as [[Hn E]|[_ [k [E Hin]]]]; rewrite E; cbn [bind].
  - cbn [String.eqb Ascii.eqb].
    destruct (PyStr.contains "task" (PyStr.lower prot_name));
      [|discriminate].
    intro H. split; [|split; auto].
    unfold PyStr.index in H.
    destruct (nth_error _ 1) as [x|]; cbn [bind] in H; [|congruence].
    destruct x as [|c r]; cbn [bind] in H; [congruence|].
    unfold PyStr.split in H.
    destruct ((c =? "-")%char || (c =? "_")%char); cbn [bind] in H;
      match type of H with
      | context [PyStr.split_from "_" 0 "" ?y] =>
          destruct (split_char_first "_" y "") as [p1 [E1 _]];
          unfold PyStr.index in E1; rewrite E1 in H; cbn [bind append] in H;
          destruct (split_char_first "-" p1 "") as [p2 [E2 _]];
          unfold PyStr.index in E2; rewrite E2 in H; discriminate H
      end.
  - simpl in Hin.
    repeat (destruct Hin as [<-|Hin];
            [intro H; vm_compute in H; discriminate H|]).
    contradiction.
Qed.

Lemma extract_task_name_raises_only_witness :
  extract_task_name "task" = Raise IndexError
  /\ IndexError = IndexError
  /\ names_known_task (PyStr.lower "task") = false
  /\ PyStr.contains "task" (PyStr.lower "task") = true.
Proof.
  assert (H : extract_task_name "task" = Raise IndexError) by reflexivity.
  split; [exact H|].
  exact (extract_task_name_raises_only "task" IndexError H).
Defined.

(* ================================================================== *)
(** ** Lemmas: create_key *)

Lemma string_app_inv_head (p a b : string) : p ++ a = p ++ b -> a = b.
Proof.
  induction p as [|c p IH]; simpl; intro H; [assumption|].
  injection H as H. auto.
Qed.

Lemma string_app_assoc (a b c : string) : (a ++ b) ++ c = a ++ b ++ c.
Proof. induction a as [|x a IH]; simpl; congruence. Qed.

Lemma string_length_app (a b : string) :
  String.length (a ++ b) = (String.length a + String.length b)%nat.
Proof. induction a as [|x a IH]; simpl; congruence. Qed.

Lemma substring_last_app (p s : string) :
  s <> "" ->
  substring (String.length (p ++ s) - 1) 1 (p ++ s)
  = substring (String.length s - 1) 1 s.
Proof.
  intro Hs. induction p as [|c p IH]; [reflexivity|].
  cbn [append String.length].
  assert (Hl : (1 <= String.length (p ++ s))%nat).
  { rewrite string_length_app. destruct s; [congruence|simpl; lia]. }
  replace (S (String.length (p ++ s)) - 1)%nat
    with (S (String.length (p ++ s) - 1)) by lia.
  cbn [substring]. exact IH.
Qed.

(** Whether a path ends with a slash is decided by its last component. *)
Lemma endswith_slash_app (p s : string) :
  PyStr.nonempty s = true ->
  PyStr.endswith "/" (p ++ s) = PyStr.endswith "/" s.
Proof.
  intro Hs. assert (Hne : s <> "") by (destruct s; [discriminate|congruence]).
  unfold PyStr.endswith. cbn [String.length].
  rewrite substring_last_app by assumption.
  f_equal. rewrite string_length_app.
  destruct s; [discriminate|].
  cbn [String.length]. destruct (String.length p + S _)%nat eqn:E; [lia|].
  reflexivity.
Qed.

(** Joining a path with the file-name component keeps the file suffix
    recoverable. *)
Lemma path_join2_suffix_inj (dir f1 f2 : string) :
  path_join2 dir ("{bids_subject_session_prefix}_" ++ f1)
  = path_join2 dir ("{bids_subject_session_prefix}_" ++ f2) ->
  f1 = f2.
Proof.
  unfold path_join2.
  change (prefix "/" ("{bids_subject_session_prefix}_" ++ f1)) with false.
  change (prefix "/" ("{bids_subject_session_prefix}_" ++ f2)) with false.
  cbv iota.
  destruct ((dir =? "") || PyStr.endswith "/" dir); intro H.
  - apply string_app_inv_head in H.
    now apply (string_app_inv_head "{bids_subject_session_prefix}_") in H.
  - apply string_app_inv_head in H. apply (string_app_inv_head "/") in H.
    now apply (string_app_inv_head "{bids_subject_session_prefix}_") in H.
Qed.

(* ================================================================== *)
(** ** Theorems: create_key *)

(** X5. [create_key] raises ValueError on an empty [subdir]; on a
    sub-directory name that is not empty and neither starts nor ends with a
    slash it returns the key whose template is
    "{bids_subject_session_dir}/<subdir>/{bids_subject_session_prefix}_<file_suffix>",
    with the default output types and no annotation classes. *)
Theorem create_key_template (subdir file_suffix : string) :
  PyStr.nonempty subdir = true ->
  prefix "/" subdir = false ->
  PyStr.endswith "/" subdir = false ->
  create_key "" file_suffix = Raise ValueError
  /\ create_key subdir file_suffix
     = OK (mkKey ("{bids_subject_session_dir}/" ++ subdir
                  ++ "/{bids_subject_session_prefix}_" ++ file_suffix)
             ["nii.gz"; "dicom"] None).
Proof.
  intros Hne Hpre Hend. split; [reflexivity|].
  unfold create_key, create_key_full. rewrite Hne. cbn [negb].
  f_equal. f_equal.
  unfold path_join. cbn [fold_left].
  change (path_join2 "" "{bids_subject_session_dir}")
    with "{bids_subject_session_dir}".
  unfold path_join2 at 2. rewrite Hpre.
  change ("{bids_subject_session_dir}" =? "") with false.
  change (PyStr.endswith "/" "{bids_subject_session_dir}") with false.
  cbn [orb]. unfold path_join2.
  change (prefix "/" ("{bids_subject_session_prefix}_" ++ file_suffix))
    with false.
  change ("{bids_subject_session_dir}" ++ "/" ++ subdir)
    with ("{bids_subject_session_dir}/" ++ subdir).
  rewrite endswith_slash_app by assumption. rewrite Hend.
  change ("{bids_subject_session_dir}/" ++ subdir =? "") with false.
  cbn [orb]. now rewrite string_app_assoc.
Qed.

Lemma create_key_template_witness :
  create_key "" "task-rest_run-01_bold" = Raise ValueError
  /\ create_key "func" "task-rest_run-01_bold"
     = OK (mkKey ("{bids_subject_session_dir}/" ++ "func"
                  ++ "/{bids_subject_session_prefix}_"
                  ++ "task-rest_run-01_bold")
             ["nii.gz"; "dicom"] None).
Proof.
  apply (create_key_template "func" "task-rest_run-01_bold"); reflexivity.
Defined.

(** X6. For given sub-directory, output types, annotation classes and
    prefix, two keys [create_key] returns are equal only if their file
    suffixes are: different task or direction labels never share a key. *)
Theorem create_key_suffix_injective (subdir f1 f2 : string)
    (outtype : list string) (annotation_classes : option (list string))
    (prefix : string) (k1 k2 : Key) :
  create_key_full subdir f1 outtype annotation_classes prefix = OK k1 ->
  create_key_full subdir f2 outtype annotation_classes prefix = OK k2 ->
  k1 = k2 ->
  f1 = f2.
Proof.
  unfold create_key_full.
  destruct (negb (PyStr.nonempty subdir)); [discriminate|].
  intros H1 H2 E. injection H1 as <-. injection H2 as <-.
  injection E as E. unfold path_join in E. cbn [fold_left] in E.
  now apply path_join2_suffix_inj in E.
Qed.

Lemma create_key_suffix_injective_witness :
  exists k,
    create_key_full "func" "task-rest_run-01_bold" ["nii.gz"; "dicom"] None ""
    = OK k
    /\ "task-rest_run-01_bold" = "task-rest_run-01_bold".
Proof.
  eexists. split; [reflexivity|].
  eapply (create_key_suffix_injective "func" "task-rest_run-01_bold"
            "task-rest_run-01_bold" ["nii.gz"; "dicom"] None "");
    reflexivity.
Defined.

(* ================================================================== *)
(** ** Theorems: add_series_to_info_dict, further properties *)

Lemma keys_setitem_present {V : Type} (d : dict Key V) (k : Key) (v v' : V) :
  get Key_eq_dec d k = Some v' ->
  keys (setitem Key_eq_dec d k v) = keys d.
Proof.
  induction d as [|[k0 v0] r IH]; simpl; [discriminate|].
  destruct (Key_eq_dec k k0); simpl; [reflexivity|].
  intro H. now rewrite IH.
Qed.

(** X7. Called with a map and a [create_key] tuple, [add_series_to_info_dict]
    returns [None], and afterwards the sequence of the key is the one it had
    (empty if it had none) followed by the new entry; every other key keeps
    its sequence, and the keys keep their order, a new key coming last. *)
Theorem add_series_to_info_dict_appends (series_id acq : string) (k : Key)
    (info : Info) :
  exists info',
    add_series_to_info_dict series_id (KTuple k) (Some info) acq
    = OK (RetNone, Some info')
    /\ registered info info' k (new_entry series_id acq)
    /\ (forall k', k' <> k -> iget info' k' = iget info k')
    /\ keys info' = (if imem info k then keys info
                     else (keys info ++ [k])%list).
Proof.
  unfold add_series_to_info_dict, registered, mem.
  destruct (iget info k) as [l|] eqn:E.
  - eexists. split; [reflexivity|]. split; [apply get_setitem_same|].
    split.
    + intros k' N. now apply get_setitem_other.
    + now apply keys_setitem_present with (v' := l).
  - eexists. split; [reflexivity|]. split; [apply get_setitem_same|].
    split.
    + intros k' N. now apply get_setitem_other.
    + rewrite setitem_absent by assumption. unfold keys.
      now rewrite map_app.
Qed.

(* ================================================================== *)
(** ** Lemmas: the cleanup pass on arbitrary maps *)

Lemma replace_from_erase_length (old s : string) :
  forall skip,
    (String.length (PyStr.replace_from old "" skip s) <= String.length s)%nat.
Proof.
  induction s as [|c r IH]; intro skip; [simpl; lia|].
  cbn [PyStr.replace_from String.length].
  destruct skip as [|n].
  - destruct (prefix old (String c r)).
    + cbn [append]. specialize (IH (String.length old - 1)%nat). lia.
    + cbn [String.length]. specialize (IH 0%nat). lia.
  - specialize (IH n). lia.
Qed.

(** Erasing a non-empty needle from a string that contains it shortens it. *)
Lemma replace_erase_shorter (old s : string) :
  old <> "" ->
  PyStr.contains old s = true ->
  (String.length (PyStr.replace old "" s) < String.length s)%nat.
Proof.
  intro Hold. unfold PyStr.replace. induction s as [|c r IH]; intro H.
  - destruct old; [congruence|discriminate H].
  - cbn [PyStr.replace_from String.length].
    cbn [PyStr.contains] in H.
    destruct (prefix old (String c r)).
    + cbn [append].
      pose proof (replace_from_erase_length old r (String.length old - 1)).
      lia.
    + cbn [String.length]. specialize (IH H). lia.
Qed.

Lemma without_placeholder_differs (k : Key) :
  PyStr.contains RUN_PLACEHOLDER (template k) = true ->
  without_placeholder k <> k.
Proof.
  intros H E. apply (f_equal template) in E.
  unfold without_placeholder, with_template in E. cbn [template] in E.
  apply (replace_erase_shorter RUN_PLACEHOLDER) in H; [|discriminate].
  rewrite E in H. lia.
Qed.

Lemma length_remove_le {V : Type} (d : dict Key V) (k : Key) :
  (List.length (remove Key_eq_dec d k) <= List.length d)%nat.
Proof.
  induction d as [|[k0 v0] r IH]; simpl; [lia|].
  destruct (Key_eq_dec k k0); simpl; lia.
Qed.

Lemma length_remove_present {V : Type} (d : dict Key V) (k : Key) :
  In k (keys d) ->
  (List.length (remove Key_eq_dec d k) < List.length d)%nat.
Proof.
  induction d as [|[k0 v0] r IH]; simpl; [intros []|].
  destruct (Key_eq_dec k k0) as [E|N]; simpl.
  - intros _. pose proof (length_remove_le r k). lia.
  - intros [E|H]; [congruence|]. specialize (IH H). lia.
Qed.

Lemma length_setitem_le {V : Type} (d : dict Key V) (k : Key) (v : V) :
  (List.length (setitem Key_eq_dec d k v) <= S (List.length d))%nat.
Proof.
  induction d as [|[k0 v0] r IH]; simpl; [lia|].
  destruct (Key_eq_dec k k0); simpl; lia.
Qed.

Lemma length_renamed_le (info : Info) (k new_k : Key) v :
  In k (keys info) ->
  (List.length (renamed info k new_k v) <= List.length info)%nat.
Proof.
  intro H. unfold renamed.
  pose proof (length_setitem_le (iremove info k) new_k v).
  pose proof (length_remove_present info k H). lia.
Qed.

(** The loop returns when the keys still to visit are present and distinct,
    and it never leaves more keys than it found. *)
Lemma clean_up_loop_returns (ks : list Key) :
  forall info,
    (forall k, In k ks -> In k (keys info)) ->
    NoDup ks ->
    exists info',
      clean_up_loop ks info = OK info'
      /\ (List.length info' <= List.length info)%nat.
Proof.
  induction ks as [|k2 ks IH]; intros info Hp Hn; simpl.
  - exists info. split; [reflexivity|lia].
  - inversion Hn as [|? ? Hnotin Hn']; subst.
    assert (Hin : In k2 (keys info)) by (apply Hp; now left).
    assert (Hin' := Hin).
    apply (in_keys_get Key_eq_dec) in Hin as [v2 Hv2].
    rewrite (clean_up_key_present _ _ _ Hv2). cbn [bind].
    assert (Hrest : forall new_k,
              exists info',
                clean_up_loop ks (renamed info k2 new_k v2) = OK info'
                /\ (List.length info' <= List.length info)%nat).
    { intro new_k.
      destruct (IH (renamed info k2 new_k v2)) as [info' [E L]]; auto.
      - intros k Hk. apply in_keys_renamed. right. split.
        + intro E. subst k. contradiction.
        + apply Hp. now right.
      - exists info'. split; [assumption|].
        pose proof (length_renamed_le info k2 new_k v2 Hin'). lia. }
    destruct ((List.length v2 =? 1)%nat
              && PyStr.contains RUN_PLACEHOLDER (template k2));
      [apply Hrest|].
    destruct (PyStr.contains RUN_01 (template k2) && no_second_run k2 info);
      [apply Hrest|].
    apply IH; auto. intros k Hk. apply Hp. now right.
Qed.

Lemma from_map_renamed (M info : Info) (k2 new_k : Key) v2 :
  from_map M info ->
  In k2 (keys M) ->
  iget info k2 = Some v2 ->
  new_k = without_placeholder k2 \/ new_k = without_run_01 k2 ->
  from_map M (renamed info k2 new_k v2).
Proof.
  intros HP Hk2 Hv2 Hnew k' v H. unfold renamed in H.
  destruct (Key_eq_dec k' new_k) as [E|N].
  - subst k'. rewrite get_setitem_same in H. injection H as <-. split.
    + exists k2. split; [assumption|]. tauto.
    + exact (proj2 (HP k2 v2 Hv2)).
  - rewrite get_setitem_other in H by assumption.
    destruct (Key_eq_dec k' k2) as [E|N2].
    + subst k'. rewrite get_remove_same in H. discriminate H.
    + rewrite get_remove_other in H by assumption. now apply HP.
Qed.

Lemma clean_up_loop_from_map (M : Info) (ks : list Key) :
  forall info info',
    clean_up_loop ks info = OK info' ->
    (forall k, In k ks -> In k (keys M)) ->
    from_map M info ->
    from_map M info'.
Proof.
  induction ks as [|k2 ks IH]; intros info info' H Hks HP; simpl in H.
  - now injection H as <-.
  - destruct (clean_up_key k2 info) as [info1|] eqn:E; [|discriminate H].
    cbn [bind] in H. apply (IH info1 info' H).
    + intros k Hk. apply Hks. now right.
    + assert (Hk2 : In k2 (keys M)) by (apply Hks; now left).
      destruct (iget info k2) as [v2|] eqn:Hv2;
        [|unfold clean_up_key, getitem in E; rewrite Hv2 in E;
          discriminate E].
      rewrite (clean_up_key_present _ _ _ Hv2) in E.
      injection E as <-.
      destruct ((List.length v2 =? 1)%nat
                && PyStr.contains RUN_PLACEHOLDER (template k2)).
      { apply from_map_renamed; auto. }
      destruct (PyStr.contains RUN_01 (template k2) && no_second_run k2 info).
      { apply from_map_renamed; auto. }
      assumption.
Qed.

(** Erasing the literal first run changes the key. *)
Lemma without_run_01_differs (k : Key) :
  PyStr.contains RUN_01 (template k) = true ->
  without_run_01 k <> k.
Proof.
  intros H E. apply (f_equal template) in E.
  unfold without_run_01, with_template in E. cbn [template] in E.
  apply (replace_erase_shorter RUN_01) in H; [|discriminate].
  rewrite E in H. lia.
Qed.

(** After [info[new_k] = info.pop(k)] with another key [new_k], the old key
    is gone and the new key holds the sequence. *)
Lemma renamed_moves (info : Info) (k new_k : Key) (v : list Assignment) :
  new_k <> k ->
  iget (renamed info k new_k v) k = None
  /\ iget (renamed info k new_k v) new_k = Some v.
Proof.
  intro N. unfold renamed. split.
  - rewrite get_setitem_other by congruence. apply get_remove_same.
  - apply get_setitem_same.
Qed.

(* ================================================================== *)
(** ** Theorems: which keys the cleanup pass rewrites *)

(** C5 (amended).  What the loop body does on a key [k] that holds the
    sequence [v].  The placeholder rewrite applies when [v] has exactly one
    element and the template contains the run placeholder, and only then.
    Otherwise, when the template contains the literal first run, the
    first-run rewrite applies if no template of the map is the second-run
    sibling, whatever the length of [v], and the map is left as it is if
    some template is; and when the template does not contain the literal
    first run, the map is left as it is.  A rewrite moves the sequence: the
    key is gone and the rewritten key holds [v].  A key whose sequence has a
    length other than one and whose template does not contain the literal
    first run keeps its name and its sequence through the whole pass,
    provided no other key is renamed onto it. *)
Theorem clean_up_on_longer_sequences (M : Info) (k : Key)
    (v : list Assignment) :
  NoDup (keys M) ->
  iget M k = Some v ->
  ((List.length v =? 1)%nat
   && PyStr.contains RUN_PLACEHOLDER (template k) = true ->
   clean_up_key k M = OK (renamed M k (without_placeholder k) v)
   /\ iget (renamed M k (without_placeholder k) v) k = None
   /\ iget (renamed M k (without_placeholder k) v) (without_placeholder k)
      = Some v)
  /\ ((List.length v =? 1)%nat
      && PyStr.contains RUN_PLACEHOLDER (template k) = false ->
      (PyStr.contains RUN_01 (template k) && no_second_run k M = true ->
       clean_up_key k M = OK (renamed M k (without_run_01 k) v)
       /\ iget (renamed M k (without_run_01 k) v) k = None
       /\ iget (renamed M k (without_run_01 k) v) (without_run_01 k)
          = Some v)
      /\ (PyStr.contains RUN_01 (template k) = true ->
          no_second_run k M = false ->
          clean_up_key k M = OK M)
      /\ (PyStr.contains RUN_01 (template k) = false ->
          clean_up_key k M = OK M))
  /\ (List.length v <> 1%nat ->
      PyStr.contains RUN_01 (template k) = false ->
      (forall k', In k' (keys M) -> k' <> k ->
         without_placeholder k' <> k /\ without_run_01 k' <> k) ->
      exists M',
        clean_up_unneeded_tags_from_info M = OK M'
        /\ iget M' k = Some v).
Proof.
  intros Hnd Hk.
  rewrite (clean_up_key_present _ _ _ Hk).
  split; [|split].
  - intro H. rewrite H. split; [reflexivity|].
    apply andb_true_iff in H as [_ H].
    apply renamed_moves. now apply without_placeholder_differs.
  - intro H. rewrite H. split; [|split].
    + intro H1. rewrite H1. split; [reflexivity|].
      apply andb_true_iff in H1 as [H1 _].
      apply renamed_moves. now apply without_run_01_differs.
    + intros H1 H2. now rewrite H1, H2.
    + intro H1. now rewrite H1.
  - intros Hlen H01 Hcol. unfold clean_up_unneeded_tags_from_info.
    apply (clean_up_loop_keeps k v (keys M) Hlen H01); auto.
Qed.

Lemma clean_up_on_longer_sequences_witness :
  NoDup (keys typical_info)
  /\ iget typical_info (func_key "func/task-rest_run-01_bold")
     = Some [item_only "5"]
  /\ PyStr.contains RUN_01 (template (func_key "func/task-rest_run-01_bold"))
     = true
  /\ no_second_run (func_key "func/task-rest_run-01_bold") typical_info
     = false
  /\ clean_up_key (func_key "func/task-rest_run-01_bold") typical_info
     = OK typical_info.
Proof.
  assert (Hnd : NoDup (keys typical_info)).
  { unfold typical_info, keys; simpl.
    repeat (constructor; [simpl; intuition discriminate|]). constructor. }
  assert (Hk : iget typical_info (func_key "func/task-rest_run-01_bold")
               = Some [item_only "5"]) by reflexivity.
  assert (H01 : PyStr.contains RUN_01
                  (template (func_key "func/task-rest_run-01_bold")) = true)
    by reflexivity.
  assert (H02 : no_second_run (func_key "func/task-rest_run-01_bold")
                  typical_info = false) by reflexivity.
  destruct (clean_up_on_longer_sequences typical_info
              (func_key "func/task-rest_run-01_bold") [item_only "5"] Hnd Hk)
    as [_ [H _]].
  destruct (H eq_refl) as [_ [Hsibling _]].
  split; [exact Hnd|]. split; [exact Hk|]. split; [exact H01|].
  split; [exact H02|]. exact (Hsibling H01 H02).
Defined.

(* ================================================================== *)
(** ** Theorems: clean_up_unneeded_tags_from_info, further properties *)

(** X8. On a map with distinct keys the cleanup pass returns (it never
    raises KeyError), and it never leaves more keys than it found. *)
Theorem clean_up_returns (M : Info) :
  NoDup (keys M) ->
  exists M',
    clean_up_unneeded_tags_from_info M = OK M'
    /\ (List.length M' <= List.length M)%nat.
Proof.
  intro Hnd. unfold clean_up_unneeded_tags_from_info.
  apply clean_up_loop_returns; auto.
Qed.

Lemma clean_up_returns_witness :
  NoDup (keys first_run_twice)
  /\ exists M',
       clean_up_unneeded_tags_from_info first_run_twice = OK M'
       /\ (List.length M' <= List.length first_run_twice)%nat.
Proof.
  assert (Hnd : NoDup (keys first_run_twice)).
  { unfold first_run_twice, keys; simpl.
    constructor; [simpl; tauto | constructor]. }
  split; [exact Hnd|].
  exact (clean_up_returns first_run_twice Hnd).
Defined.

(** X9. The cleanup pass only renames: every key of its result is a key of
    the input, as it was or with the run placeholder or the literal first
    run erased, and every assignment sequence of its result is, unchanged,
    a sequence of the input. *)
Theorem clean_up_only_renames (M M' : Info) (k' : Key)
    (v : list Assignment) :
  clean_up_unneeded_tags_from_info M = OK M' ->
  iget M' k' = Some v ->
  (exists k, In k (keys M)
             /\ (k' = k \/ k' = without_placeholder k
                 \/ k' = without_run_01 k))
  /\ (exists k, iget M k = Some v).
Proof.
  unfold clean_up_unneeded_tags_from_info. intros H Hv.
  apply (clean_up_loop_from_map M (keys M) M M' H); auto.
  intros k0 v0 H0. split.
  - exists k0. split; [|tauto]. apply (in_keys_get Key_eq_dec). eauto.
  - eauto.
Qed.

Lemma clean_up_only_renames_witness :
  exists M',
    clean_up_unneeded_tags_from_info first_run_twice = OK M'
    /\ iget M' (func_key "func/task-rest_bold")
       = Some [item_only "1"; item_only "2"]
    /\ (exists k, In k (keys first_run_twice)
                  /\ (func_key "func/task-rest_bold" = k
                      \/ func_key "func/task-rest_bold" = without_placeholder k
                      \/ func_key "func/task-rest_bold" = without_run_01 k))
    /\ (exists k, iget first_run_twice k
                  = Some [item_only "1"; item_only "2"]).
Proof.
  exists [(func_key "func/task-rest_bold", [item_only "1"; item_only "2"])].
  assert (H1 : clean_up_unneeded_tags_from_info first_run_twice
               = OK [(func_key "func/task-rest_bold",
                      [item_only "1"; item_only "2"])]) by reflexivity.
  assert (H2 : iget [(func_key "func/task-rest_bold",
                      [item_only "1"; item_only "2"])]
                 (func_key "func/task-rest_bold")
               = Some [item_only "1"; item_only "2"]) by reflexivity.
  split; [exact H1|]. split; [exact H2|].
  exact (clean_up_only_renames first_run_twice _ _ _ H1 H2).
Defined.

(** X10. Single-run collapse.  On a key with exactly one assignment whose
    template contains the run placeholder, the loop body returns a map in
    which the key is gone, the key without the placeholder holds that one
    assignment, and every other key is as before; on the map that holds
    only this key, the whole pass returns the map that holds only the
    renamed key. *)
Theorem clean_up_collapses_single_run (info : Info) (k : Key)
    (a : Assignment) :
  iget info k = Some [a] ->
  PyStr.contains RUN_PLACEHOLDER (template k) = true ->
  (exists info',
     clean_up_key k info = OK info'
     /\ iget info' k = None
     /\ iget info' (without_placeholder k) = Some [a]
     /\ forall k', k' <> k -> k' <> without_placeholder k ->
          iget info' k' = iget info k')
  /\ clean_up_unneeded_tags_from_info [(k, [a])]
     = OK [(without_placeholder k, [a])].
Proof.
  intros Hk Hph. assert (Hne := without_placeholder_differs k Hph). split.
  - rewrite (clean_up_key_present _ _ _ Hk). rewrite Hph. cbn [List.length].
    cbn [Nat.eqb andb]. eexists. split; [reflexivity|]. unfold renamed.
    split; [|split].
    + rewrite get_setitem_other by congruence. apply get_remove_same.
    + apply get_setitem_same.
    + intros k' N1 N2. now apply get_renamed_other.
  - unfold clean_up_unneeded_tags_from_info. cbn [keys map fst clean_up_loop].
    assert (Hg : iget [(k, [a])] k = Some [a]).
    { simpl. destruct (Key_eq_dec k k); congruence. }
    rewrite (clean_up_key_present _ _ _ Hg). rewrite Hph.
    cbn [List.length Nat.eqb andb bind]. unfold renamed. simpl.
    destruct (Key_eq_dec k k); [reflexivity|congruence].
Qed.

Lemma clean_up_collapses_single_run_witness :
  (exists info',
     clean_up_key (func_key "anat/acq-{acq}_run-{item:02d}_T1w") typical_info
     = OK info'
     /\ iget info' (func_key "anat/acq-{acq}_run-{item:02d}_T1w") = None
     /\ iget info'
          (without_placeholder (func_key "anat/acq-{acq}_run-{item:02d}_T1w"))
        = Some [mkAssignment "2" (Some "highres")]
     /\ forall k',
          k' <> func_key "anat/acq-{acq}_run-{item:02d}_T1w" ->
          k' <> without_placeholder
                  (func_key "anat/acq-{acq}_run-{item:02d}_T1w") ->
          iget info' k' = iget typical_info k')
  /\ clean_up_unneeded_tags_from_info
       [(func_key "anat/acq-{acq}_run-{item:02d}_T1w",
         [mkAssignment "2" (Some "highres")])]
     = OK [(without_placeholder
              (func_key "anat/acq-{acq}_run-{item:02d}_T1w"),
            [mkAssignment "2" (Some "highres")])].
Proof.
  apply (clean_up_collapses_single_run typical_info
           (func_key "anat/acq-{acq}_run-{item:02d}_T1w")
           (mkAssignment "2" (Some "highres"))); reflexivity.
Defined.

(* ================================================================== *)
(** ** Lemmas: the order of strings *)

Lemma string_compare_refl (s : string) : (s ?= s) = Eq.
Proof.
  pose proof (String.compare_antisym s s) as H.
  destruct (s ?= s); simpl in H; congruence.
Qed.

Lemma string_leb_refl (s : string) : (s <=? s) = true.
Proof. unfold String.leb. now rewrite string_compare_refl. Qed.

Lemma ascii_compare_N (a b : ascii) :
  Ascii.compare a b = N.compare (N_of_ascii a) (N_of_ascii b).
Proof. reflexivity. Qed.

Lemma string_leb_trans (a : string) :
  forall b c, (a <=? b) = true -> (b <=? c) = true -> (a <=? c) = true.
Proof.
  unfold String.leb.
  induction a as [|x a IH]; intros [|y b] [|z c]; simpl; try congruence.
  rewrite !ascii_compare_N.
  destruct (N.compare_spec (N_of_ascii x) (N_of_ascii y)) as [E1|L1|G1];
    destruct (N.compare_spec (N_of_ascii y) (N_of_ascii z)) as [E2|L2|G2];
    destruct (N.compare_spec (N_of_ascii x) (N_of_ascii z)) as [E3|L3|G3];
    try congruence; try lia; intros H1 H2.
  now apply (IH b c).
Qed.

Lemma string_ltb_not_leb (a b : string) :
  (a <? b) = true -> (b <=? a) = false.
Proof.
  unfold String.ltb, String.leb. rewrite (String.compare_antisym b a).
  destruct (a ?= b); simpl; congruence.
Qed.

Lemma insert_sorted_sorted (x : string) (l : list string) :
  StronglySorted string_le l -> StronglySorted string_le (insert_sorted x l).
Proof.
  induction 1 as [|y r Hr IH Hy]; simpl.
  - constructor; constructor.
  - destruct (x <=? y) eqn:E.
    + constructor; [now constructor|]. constructor; [exact E|].
      rewrite Forall_forall in *. intros z Hz.
      apply (string_leb_trans x y z E). now apply Hy.
    + constructor; [assumption|].
      rewrite Forall_forall in *. intros z Hz.
      apply in_insert_sorted in Hz as [->|Hz]; [|now apply Hy].
      destruct (String.leb_total x y) as [H|H]; [congruence|exact H].
Qed.

Lemma sorted_sorted (l : list string) : StronglySorted string_le (sorted l).
Proof.
  induction l as [|x l IH]; simpl; [constructor|].
  now apply insert_sorted_sorted.
Qed.

(* ================================================================== *)
(** ** Lemmas: the sorted part of the output *)

Lemma strongly_sorted_app {A : Type} (R : A -> A -> Prop) (a b : list A) :
  StronglySorted R a -> StronglySorted R b ->
  (forall x y, In x a -> In y b -> R x y) ->
  StronglySorted R (a ++ b).
Proof.
  induction 1 as [|x a Ha IH Hx]; intros Hb Hab; simpl; [assumption|].
  constructor.
  - apply IH; auto. intros u v Hu Hv. apply Hab; [now right|assumption].
  - apply Forall_app. split; [assumption|].
    apply Forall_forall. intros y Hy. apply Hab; [now left|assumption].
Qed.

Lemma strongly_sorted_nth {A : Type} (R : A -> A -> Prop) (l : list A) :
  StronglySorted R l ->
  forall i j x y, (i < j)%nat ->
    nth_error l i = Some x -> nth_error l j = Some y -> R x y.
Proof.
  induction 1 as [|a l Hl IH Ha]; intros i j x y Hij Hi Hj.
  - destruct i; discriminate Hi.
  - destruct j as [|j]; [lia|]. simpl in Hj. destruct i as [|i].
    + simpl in Hi. injection Hi as <-.
      rewrite Forall_forall in Ha. apply Ha. now apply nth_error_In in Hj.
    + simpl in Hi. apply (IH i j); auto. lia.
Qed.

(** One pass of the loop over the dates and times appends a block of records
    of the input, all with the date and time [dt]. *)
Lemma append_date_time_block (seqinfo acc : list SeriesRecord) (dt : string) :
  exists block,
    append_date_time seqinfo acc dt = (acc ++ block)%list
    /\ forall x, In x block ->
         In x seqinfo /\ has_date_time x = true /\ date_time x = dt.
Proof.
  unfold append_date_time.
  set (dTseries := series_at seqinfo dt).
  assert (H1 : exists b1,
             fold_left (append_by_uid dTseries) (sorted (uids_of dTseries)) acc
             = (acc ++ b1)%list
             /\ forall x, In x b1 -> In x dTseries).
  { generalize (sorted (uids_of dTseries)) as sids. intro sids. revert acc.
    induction sids as [|sid sids IH]; intro acc; simpl.
    - exists []. rewrite app_nil_r. split; [reflexivity|]. intros x [].
    - destruct (IH (append_by_uid dTseries acc sid)) as [b [E Hb]].
      unfold append_by_uid in *. rewrite E, <- app_assoc.
      eexists. split; [reflexivity|].
      intros x Hx. apply in_app_or in Hx as [Hx|Hx]; [|auto].
      now apply filter_In in Hx as [Hx _]. }
  destruct H1 as [b1 [E1 Hb1]]. rewrite E1.
  destruct (append_if_absent_all dTseries (acc ++ b1)%list)
    as [rest [E2 [Hrest _]]].
  rewrite E2, <- app_assoc. eexists. split; [reflexivity|].
  intros x Hx. apply in_series_at.
  apply in_app_or in Hx as [Hx|Hx]; [now apply Hb1|].
  now apply Hrest in Hx as [Hx _].
Qed.

Lemma fold_append_date_time_sorted (seqinfo : list SeriesRecord)
    (dts : list string) :
  forall acc,
    StronglySorted string_le dts ->
    StronglySorted not_later acc ->
    (forall x dt, In x acc -> In dt dts -> (date_time x <=? dt) = true) ->
    StronglySorted not_later (fold_left (append_date_time seqinfo) dts acc).
Proof.
  induction dts as [|dt dts IH]; intros acc Hd Ha Hle; simpl; [assumption|].
  inversion Hd as [|? ? Hd' Hdt]; subst. rewrite Forall_forall in Hdt.
  destruct (append_date_time_block seqinfo acc dt) as [block [E Hb]].
  rewrite E. apply IH; auto.
  - apply strongly_sorted_app; auto.
    + assert (Hall : forall x, In x block -> date_time x = dt)
        by (intros x Hx; now apply Hb in Hx).
      clear E Hb. induction block as [|b block IHb]; constructor.
      * apply IHb. intros x Hx. apply Hall. now right.
      * apply Forall_forall. intros y Hy. unfold not_later.
        rewrite (Hall b), (Hall y) by (simpl; auto).
        apply string_leb_refl.
    + intros x y Hx Hy. unfold not_later.
      apply Hb in Hy as [_ [_ ->]]. apply Hle; [assumption|now left].
  - intros x dt' Hx Hdt'. apply in_app_or in Hx as [Hx|Hx].
    + apply Hle; [assumption|now right].
    + apply Hb in Hx as [_ [_ ->]]. now apply Hdt.
Qed.

Lemma timed_part_sorted (seqinfo : list SeriesRecord) :
  StronglySorted not_later (timed_part seqinfo).
Proof.
  unfold timed_part. apply fold_append_date_time_sorted.
  - apply sorted_sorted.
  - constructor.
  - intros x dt [].
Qed.

Lemma timed_part_incl (seqinfo : list SeriesRecord) (r : SeriesRecord) :
  In r (timed_part seqinfo) -> In r seqinfo.
Proof.
  unfold timed_part.
  generalize (sorted_set (map date_time (filter has_date_time seqinfo))).
  intro dts.
  assert (H : forall acc, (forall x, In x acc -> In x seqinfo) ->
            forall x, In x (fold_left (append_date_time seqinfo) dts acc) ->
                      In x seqinfo).
  { induction dts as [|dt dts IH]; intros acc Hacc x Hx; simpl in Hx; auto.
    apply (IH (append_date_time seqinfo acc dt)); auto.
    intros y Hy.
    destruct (append_date_time_block seqinfo acc dt) as [block [E Hb]].
    rewrite E in Hy. apply in_app_or in Hy as [Hy|Hy]; auto.
    now apply Hb in Hy. }
  apply H. intros x [].
Qed.

(** On a list without repeats, the trailing loop appends the records that
    are not there yet, in the order of the list. *)
Lemma append_if_absent_filter (P : SeriesRecord -> bool)
    (l : list SeriesRecord) :
  forall acc,
    NoDup l ->
    (forall x, In x l -> (In x acc <-> P x = true)) ->
    fold_left append_if_absent l acc
    = (acc ++ filter (fun s => negb (P s)) l)%list.
Proof.
  induction l as [|x l IH]; intros acc Hn Hacc; simpl.
  - now rewrite app_nil_r.
  - inversion Hn as [|? ? Hx Hn']; subst.
    unfold append_if_absent at 2.
    destruct (in_dec SeriesRecord_eq_dec x acc) as [Hin|Hnin].
    + assert (Px : P x = true) by (apply Hacc; [now left|assumption]).
      rewrite Px. cbn [negb]. apply IH; auto.
      intros y Hy. apply Hacc. now right.
    + assert (Px : P x = false).
      { destruct (P x) eqn:E; [|reflexivity].
        exfalso. apply Hnin. apply Hacc; [now left|assumption]. }
      rewrite Px. cbn [negb]. rewrite IH; auto.
      * now rewrite <- app_assoc.
      * intros y Hy. rewrite in_app_iff. split.
        -- intros [H|[H|[]]]; [apply Hacc; [now right|assumption]|].
           subst y. contradiction.
        -- intro H. left. apply Hacc; [now right|assumption].
Qed.

(** The two directions the loop of [infotodict] needs: what it enumerates
    comes from the input, and every record of the input is enumerated. *)
Lemma sort_incl (seqinfo : list SeriesRecord) (r : SeriesRecord) :
  In r (sort_seqinfo_by_series_date_time seqinfo) -> In r seqinfo.
Proof.
  unfold sort_seqinfo_by_series_date_time.
  destruct (append_if_absent_all seqinfo (timed_part seqinfo))
    as [rest [E [Hrest _]]].
  rewrite E. intro H. apply in_app_or in H as [H|H].
  - now apply timed_part_incl.
  - now apply Hrest in H as [H _].
Qed.

Lemma sort_keeps (seqinfo : list SeriesRecord) (r : SeriesRecord) :
  In r seqinfo -> In r (sort_seqinfo_by_series_date_time seqinfo).
Proof.
  unfold sort_seqinfo_by_series_date_time.
  destruct (append_if_absent_all seqinfo (timed_part seqinfo))
    as [rest [E [_ Hall]]].
  rewrite E. apply Hall.
Qed.

(* ================================================================== *)
(** ** Theorems: sort_seqinfo_by_series_date_time, further properties *)

(** X11. The output holds the same records as the input: no record is lost
    and none is invented (a record may occur a different number of times). *)
Theorem sort_same_records (seqinfo : list SeriesRecord) (r : SeriesRecord) :
  In r (sort_seqinfo_by_series_date_time seqinfo) <-> In r seqinfo.
Proof.
  unfold sort_seqinfo_by_series_date_time.
  destruct (append_if_absent_all seqinfo (timed_part seqinfo))
    as [rest [E [Hrest Hall]]].
  rewrite E. split.
  - intro H. apply in_app_or in H as [H|H].
    + now apply timed_part_incl.
    + now apply Hrest in H as [H _].
  - apply Hall.
Qed.

(** X12. On an input without repeated records, the output ends with the
    records that lack a date or a time, each once and in their input order,
    after records that all have both; an input in which no record has both
    comes out unchanged. *)
Theorem sort_keeps_untimed_order (seqinfo : list SeriesRecord) :
  NoDup seqinfo ->
  (exists timed,
     sort_seqinfo_by_series_date_time seqinfo
     = (timed ++ filter (fun s => negb (has_date_time s)) seqinfo)%list
     /\ Forall (fun s => has_date_time s = true) timed)
  /\ (Forall (fun s => has_date_time s = false) seqinfo ->
      sort_seqinfo_by_series_date_time seqinfo = seqinfo).
Proof.
  intro Hn.
  assert (E : sort_seqinfo_by_series_date_time seqinfo
              = (timed_part seqinfo
                 ++ filter (fun s => negb (has_date_time s)) seqinfo)%list).
  { unfold sort_seqinfo_by_series_date_time.
    apply append_if_absent_filter; auto.
    intros x Hx. split.
    - intro H. pose proof (timed_part_timed seqinfo) as Ht.
      unfold all_timed in Ht. rewrite Forall_forall in Ht. now apply Ht.
    - now apply timed_part_complete. }
  split.
  - exists (timed_part seqinfo). split; [exact E|apply timed_part_timed].
  - intro Hall. rewrite E. rewrite Forall_forall in Hall.
    assert (Hnil : timed_part seqinfo = []).
    { destruct (timed_part seqinfo) as [|x t] eqn:Et; [reflexivity|].
      exfalso. assert (Hx : In x (timed_part seqinfo))
        by (rewrite Et; now left).
      pose proof (timed_part_timed seqinfo) as Ht.
      unfold all_timed in Ht. rewrite Forall_forall in Ht.
      specialize (Ht x Hx). apply timed_part_incl in Hx.
      specialize (Hall x Hx). congruence. }
    rewrite Hnil. simpl. clear E Hnil Hn.
    induction seqinfo as [|x l IH]; simpl; [reflexivity|].
    rewrite (Hall x) by now left. simpl. f_equal.
    apply IH. intros y Hy. apply Hall. now right.
Qed.

Lemma sort_keeps_untimed_order_witness :
  NoDup [date_only; timed; undated]
  /\ (exists timed_first,
        sort_seqinfo_by_series_date_time [date_only; timed; undated]
        = (timed_first
           ++ filter (fun s => negb (has_date_time s))
                [date_only; timed; undated])%list
        /\ Forall (fun s => has_date_time s = true) timed_first)
  /\ (Forall (fun s => has_date_time s = false) [date_only; timed; undated] ->
      sort_seqinfo_by_series_date_time [date_only; timed; undated]
      = [date_only; timed; undated]).
Proof.
  assert (Hn : NoDup [date_only; timed; undated]).
  { repeat (constructor; [simpl; intuition discriminate|]). constructor. }
  split; [exact Hn|].
  exact (sort_keeps_untimed_order [date_only; timed; undated] Hn).
Defined.

(** X13. The output is in acquisition order: of two records that both have
    a date and a time, the one whose concatenated date and time is the
    smaller string stands before the other, wherever they were in the
    input. *)
Theorem sort_chronological (seqinfo : list SeriesRecord) :
  chronological (sort_seqinfo_by_series_date_time seqinfo).
Proof.
  destruct (sort_splits seqinfo) as [rest [E Hrest]].
  rewrite Forall_forall in Hrest.
  intros i j r1 r2 H1 H2 T1 T2 Hlt. rewrite E in H1, H2.
  assert (Hin : forall n r, nth_error (timed_part seqinfo ++ rest) n = Some r ->
                  has_date_time r = true ->
                  nth_error (timed_part seqinfo) n = Some r).
  { intros n r Hn Hr.
    destruct (Nat.lt_ge_cases n (List.length (timed_part seqinfo)))
      as [Hl|Hg].
    - now rewrite nth_error_app1 in Hn.
    - rewrite nth_error_app2 in Hn by assumption.
      apply nth_error_In in Hn. apply Hrest in Hn. congruence. }
  apply Hin in H1; auto. apply Hin in H2; auto.
  destruct (Nat.lt_trichotomy i j) as [L|[Eq|G]]; [assumption| |].
  - subst j. rewrite H1 in H2. injection H2 as ->.
    apply string_ltb_not_leb in Hlt.
    rewrite string_leb_refl in Hlt. discriminate Hlt.
  - pose proof (strongly_sorted_nth not_later _ (timed_part_sorted seqinfo)
                  j i r2 r1 G H2 H1) as Hle.
    unfold not_later in Hle. apply string_ltb_not_leb in Hlt. congruence.
Qed.

(* ================================================================== *)
(** ** Theorems: the loop of infotodict, further properties *)

(** X14. The functional branch raises only where [extract_task_name] does.
    Where the task label is returned, the series is registered under the
    key of "task-<label>_run-<NN>_bold" with the next run number of the
    label (1 for a label without a run so far), that number is recorded for
    the label, and the run numbers of the other labels are untouched. *)
Theorem functional_registers (s : SeriesRecord) (info : Info)
    (run_numbers : RunNumbers) (task : string) :
  extract_task_name (series_description s) = OK task ->
  exists key info' run_numbers',
    create_key "func"
      ("task-" ++ task ++ "_run-"
       ++ PyStr.fmt_02d (next_run_number run_numbers task) ++ "_bold")
    = OK key
    /\ functional s (info, run_numbers) = OK (info', run_numbers')
    /\ registered info info' key (mkAssignment (series_id s) None)
    /\ get string_dec run_numbers' task
       = Some (next_run_number run_numbers task)
    /\ forall other, other <> task ->
         get string_dec run_numbers' other = get string_dec run_numbers other.
Proof.
  intro H. unfold functional. rewrite H. cbn [bind].
  assert (Hn : get string_dec (next_run run_numbers task) task
               = Some (next_run_number run_numbers task)).
  { unfold next_run, next_run_number.
    destruct (get string_dec run_numbers task) as [n|];
      [destruct (n =? 0)%Z|]; apply get_setitem_same. }
  assert (Ho : forall other, other <> task ->
               get string_dec (next_run run_numbers task) other
               = get string_dec run_numbers other).
  { intros other N. unfold next_run.
    destruct (get string_dec run_numbers task) as [n|];
      [destruct (n =? 0)%Z|]; now apply get_setitem_other. }
  unfold getitem. rewrite Hn. cbn [bind].
  unfold create_key, create_key_full. cbn [PyStr.nonempty negb bind].
  rewrite add_series_appends. cbn [bind].
  eexists. eexists. eexists. split; [reflexivity|]. split; [reflexivity|].
  split; [apply registered_dict_append|]. split; assumption.
Qed.

Lemma functional_registers_witness :
  extract_task_name (series_description resting_state) = OK "rest"
  /\ exists key info' run_numbers',
       create_key "func"
         ("task-" ++ "rest" ++ "_run-"
          ++ PyStr.fmt_02d (next_run_number [("rest", 1%Z)] "rest") ++ "_bold")
       = OK key
       /\ functional resting_state ([], [("rest", 1%Z)])
          = OK (info', run_numbers')
       /\ registered [] info' key (mkAssignment (series_id resting_state) None)
       /\ get string_dec run_numbers' "rest"
          = Some (next_run_number [("rest", 1%Z)] "rest")
       /\ forall other, other <> "rest" ->
            get string_dec run_numbers' other
            = get string_dec [("rest", 1%Z)] other.
Proof.
  assert (H : extract_task_name (series_description resting_state)
              = OK "rest") by reflexivity.
  split; [exact H|].
  exact (functional_registers resting_state [] [("rest", 1%Z)] "rest" H).
Defined.

Lemma classify_series_unmatched (g : Globals) (K : StaticKeys)
    (seqinfo : list SeriesRecord) (idx : nat) (s : SeriesRecord)
    (st : Info * RunNumbers) :
  matches_no_rule s = true -> classify_series g K seqinfo idx s st = OK st.
Proof.
  unfold matches_no_rule. intro H.
  repeat (apply andb_true_iff in H; destruct H as [H ?]).
  repeat match goal with
         | Hn : negb _ = true |- _ => apply negb_true_iff in Hn
         end.
  destruct st as [info rn]. unfold classify_series, t1w_chain, t2w_chain.
  repeat match goal with
         | Hn : ?c = false |- _ => rewrite Hn; clear Hn
         end.
  reflexivity.
Qed.

Lemma classify_from_unmatched (g : Globals) (K : StaticKeys)
    (seqinfo l : list SeriesRecord) :
  Forall (fun s => matches_no_rule s = true) l ->
  forall idx st, classify_from g K seqinfo idx l st = OK st.
Proof.
  induction 1 as [|s l Hs Hl IH]; intros idx st; simpl; [reflexivity|].
  rewrite classify_series_unmatched by assumption. cbn [bind]. apply IH.
Qed.

(** X15. Records that match no rule are dropped without an error: on an
    input in which no record matches a rule, [infotodict] returns, in every
    environment, the map it returns on the empty input. *)
Theorem infotodict_drops_unmatched (g : Globals)
    (seqinfo : list SeriesRecord) :
  Forall (fun s => matches_no_rule s = true) seqinfo ->
  infotodict g seqinfo = infotodict module_globals []
  /\ returns (infotodict g seqinfo).
Proof.
  intro H.
  assert (E : infotodict g seqinfo = infotodict module_globals []).
  { unfold infotodict. rewrite static_keys_returns. cbn [bind].
    rewrite classify_from_unmatched.
    - reflexivity.
    - rewrite Forall_forall in *. intros s Hs. apply H.
      now apply sort_incl. }
  split; [exact E|]. rewrite E. eexists. vm_compute. reflexivity.
Qed.

Lemma infotodict_drops_unmatched_witness :
  Forall (fun s => matches_no_rule s = true) [unknown_series]
  /\ infotodict bound_globals [unknown_series] = infotodict module_globals []
  /\ returns (infotodict bound_globals [unknown_series]).
Proof.
  assert (H : Forall (fun s => matches_no_rule s = true) [unknown_series])
    by (constructor; [reflexivity|constructor]).
  split; [exact H|].
  exact (infotodict_drops_unmatched bound_globals [unknown_series] H).
Defined.

(** X16. A series whose sequence name is exactly "fgre" is a scout in every
    environment: the first chain passes it over, and the loop step puts its
    series id, once, under the DICOM-only scout key and returns. *)
Theorem scout_registered (g : Globals) (K : StaticKeys)
    (seqinfo : list SeriesRecord) (idx : nat) (s : SeriesRecord)
    (info : Info) (run_numbers : RunNumbers) :
  is_scout s = true ->
  In (t2_scout K) (keys info) ->
  classify_series g K seqinfo idx s (info, run_numbers)
  = OK (dict_append info (t2_scout K) (mkAssignment (series_id s) None),
        run_numbers).
Proof.
  intros Hs Hin. assert (Hseq := Hs). unfold is_scout in Hseq.
  apply String.eqb_eq in Hseq.
  unfold classify_series, t1w_chain, is_highres_t1w, is_inplane, is_fse_t1w.
  rewrite Hseq.
  change (PyStr.contains "fl" "fgre") with false.
  change (PyStr.contains "efgre3d" "fgre") with false.
  change (PyStr.contains "tse" "fgre") with false.
  rewrite !andb_false_r. cbn [andb bind].
  unfold t2w_chain. rewrite Hs.
  rewrite append_to_present by assumption. reflexivity.
Qed.

Lemma scout_registered_witness :
  is_scout localizer = true
  /\ In (t2_scout the_static_keys) (keys (initial_info the_static_keys))
  /\ classify_series module_globals the_static_keys [localizer] 0 localizer
       (initial_info the_static_keys, [])
     = OK (dict_append (initial_info the_static_keys)
             (t2_scout the_static_keys)
             (mkAssignment (series_id localizer) None), []).
Proof.
  assert (H1 : is_scout localizer = true) by reflexivity.
  assert (H2 : In (t2_scout the_static_keys)
                 (keys (initial_info the_static_keys)))
    by (vm_compute; tauto).
  split; [exact H1|]. split; [exact H2|].
  exact (scout_registered module_globals the_static_keys [localizer] 0
           localizer (initial_info the_static_keys) [] H1 H2).
Defined.

Lemma classify_series_unbound (K : StaticKeys) (seqinfo : list SeriesRecord)
    (idx : nat) (s : SeriesRecord) (st : Info * RunNumbers) :
  reads_unbound_name s = true ->
  exists e, classify_series module_globals K seqinfo idx s st = Raise e.
Proof.
  unfold reads_unbound_name. intro H. destruct st as [info rn].
  unfold classify_series, t1w_chain.
  destruct (is_highres_t1w s); [eexists; reflexivity|].
  destruct (is_inplane s).
  - cbn [negb andb orb] in H.
    destruct (append_to info (inplaneT1 K) _) as [info1|e];
      [|eexists; reflexivity].
    cbn [bind]. unfold t2w_chain, highres_t2w.
    destruct (is_scout s); [discriminate H|]. cbn [negb andb] in H.
    destruct (is_highres_t2w s); [eexists; reflexivity|].
    cbn [orb] in H. rewrite H. eexists; reflexivity.
  - cbn [negb andb orb] in H.
    destruct (is_fse_t1w s); [eexists; reflexivity|].
    cbn [orb bind] in H |- *. unfold t2w_chain, highres_t2w.
    destruct (is_scout s); [discriminate H|]. cbn [negb andb] in H.
    destruct (is_highres_t2w s); [eexists; reflexivity|].
    cbn [orb] in H. rewrite H. eexists; reflexivity.
Qed.

Lemma classify_from_unbound (K : StaticKeys) (seqinfo l : list SeriesRecord)
    (r : SeriesRecord) :
  In r l -> reads_unbound_name r = true ->
  forall idx st, exists e,
    classify_from module_globals K seqinfo idx l st = Raise e.
Proof.
  intros Hin Hr. induction l as [|s l IH]; intros idx st; [destruct Hin|].
  simpl. destruct Hin as [->|Hin].
  - destruct (classify_series_unbound K seqinfo idx r st Hr) as [e E].
    rewrite E. eexists; reflexivity.
  - destruct (classify_series module_globals K seqinfo idx s st) as [st'|e];
      [|eexists; reflexivity].
    cbn [bind]. now apply IH.
Qed.

(** X17. In the module as it is written, [infotodict] raises on every input
    that holds a record taking the high-resolution T1w, the FSE T1w, the T2w
    or the HASTE branch: these branches read [direction] or [t2_dicom],
    which nothing binds. *)
Theorem infotodict_raises_on_anatomical (seqinfo : list SeriesRecord)
    (r : SeriesRecord) :
  In r seqinfo ->
  reads_unbound_name r = true ->
  exists e, infotodict module_globals seqinfo = Raise e.
Proof.
  intros Hin Hr. unfold infotodict. rewrite static_keys_returns. cbn [bind].
  apply (sort_keeps seqinfo r) in Hin.
  assert (Hbind : forall m : result (Info * RunNumbers),
            (exists e, m = Raise e) ->
            exists e,
              ('(info, _) <- m ;; clean_up_unneeded_tags_from_info info)
              = Raise e).
  { intros m [e ->]. eexists; reflexivity. }
  apply Hbind. now apply classify_from_unbound with (r := r).
Qed.

Lemma infotodict_raises_on_anatomical_witness :
  In mprage [localizer; mprage]
  /\ reads_unbound_name mprage = true
  /\ exists e, infotodict module_globals [localizer; mprage] = Raise e.
Proof.
  assert (H1 : In mprage [localizer; mprage]) by (right; left; reflexivity).
  assert (H2 : reads_unbound_name mprage = true) by reflexivity.
  split; [exact H1|]. split; [exact H2|].
  exact (infotodict_raises_on_anatomical [localizer; mprage] mprage H1 H2).
Defined.

(* ================================================================== *)
(** ** Theorems: the field-map branches *)

Lemma t2w_chain_gre_fieldmap (g : Globals) (K : StaticKeys)
    (seqinfo : list SeriesRecord) (idx : nat) (s : SeriesRecord)
    (info : Info) (rn : RunNumbers) :
  reaches_gre_fieldmap s = true ->
  t2w_chain g K seqinfo idx s (info, rn)
  = (info' <- gre_fieldmap K s info ;; OK (info', rn)).
Proof.
  unfold reaches_gre_fieldmap. intro H.
  repeat (apply andb_true_iff in H; destruct H as [H ?]).
  repeat match goal with
         | Hn : negb _ = true |- _ => apply negb_true_iff in Hn
         end.
  unfold t2w_chain.
  repeat match goal with
         | Hn : ?c = _ |- _ => rewrite Hn; clear Hn
         end.
  reflexivity.
Qed.

Lemma t2w_chain_se_fieldmap (g : Globals) (K : StaticKeys)
    (seqinfo : list SeriesRecord) (idx : nat) (s : SeriesRecord)
    (info : Info) (rn : RunNumbers) :
  reaches_se_fieldmap s = true ->
  t2w_chain g K seqinfo idx s (info, rn)
  = (info' <- se_fieldmap g seqinfo idx s info ;; OK (info', rn)).
Proof.
  unfold reaches_se_fieldmap. intro H.
  repeat (apply andb_true_iff in H; destruct H as [H ?]).
  repeat match goal with
         | Hn : negb _ = true |- _ => apply negb_true_iff in Hn
         end.
  unfold t2w_chain.
  repeat match goal with
         | Hn : ?c = _ |- _ => rewrite Hn; clear Hn
         end.
  reflexivity.
Qed.

Lemma t1w_chain_no_rule (g : Globals) (K : StaticKeys)
    (seqinfo : list SeriesRecord) (idx : nat) (s : SeriesRecord)
    (info : Info) :
  no_t1w_rule s = true -> t1w_chain g K seqinfo idx s info = OK info.
Proof.
  unfold no_t1w_rule. intro H.
  repeat (apply andb_true_iff in H; destruct H as [H ?]).
  repeat match goal with
         | Hn : negb _ = true |- _ => apply negb_true_iff in Hn
         end.
  unfold t1w_chain.
  repeat match goal with
         | Hn : ?c = _ |- _ => rewrite Hn; clear Hn
         end.
  reflexivity.
Qed.

(** X18. A GRE field map is classified by the third entry of its image type
    alone, in every environment: the step raises IndexError when the tuple
    has fewer than three entries, puts the series under the magnitude key
    when the entry is "M", under the phase-difference key when it is "P",
    and otherwise drops the series, whatever the other entries are. *)
Theorem gre_fieldmap_by_third_flag (g : Globals) (K : StaticKeys)
    (seqinfo : list SeriesRecord) (idx : nat) (s : SeriesRecord)
    (info : Info) (run_numbers : RunNumbers) :
  no_t1w_rule s = true ->
  reaches_gre_fieldmap s = true ->
  In (fmap_gre_mag K) (keys info) ->
  In (fmap_gre_phase K) (keys info) ->
  classify_series g K seqinfo idx s (info, run_numbers)
  = match nth_error (image_type s) 2 with
    | None => Raise IndexError
    | Some flag =>
        OK (if flag =? "M" then
              dict_append info (fmap_gre_mag K)
                (mkAssignment (series_id s) None)
            else if flag =? "P" then
              dict_append info (fmap_gre_phase K)
                (mkAssignment (series_id s) None)
            else info,
            run_numbers)
    end.
Proof.
  intros H1 H2 Hm Hp. unfold classify_series.
  rewrite t1w_chain_no_rule by assumption. cbn [bind].
  rewrite t2w_chain_gre_fieldmap by assumption.
  unfold gre_fieldmap, PyStr.index.
  destruct (nth_error (image_type s) 2) as [flag|]; [|reflexivity].
  cbn [bind]. destruct (flag =? "M").
  - now rewrite append_to_present.
  - destruct (flag =? "P"); [now rewrite append_to_present|reflexivity].
Qed.

Lemma gre_fieldmap_by_third_flag_witness :
  no_t1w_rule gre_phase = true
  /\ reaches_gre_fieldmap gre_phase = true
  /\ classify_series module_globals the_static_keys [gre_phase] 0 gre_phase
       (initial_info the_static_keys, [])
     = OK (dict_append (initial_info the_static_keys)
             (fmap_gre_phase the_static_keys)
             (mkAssignment (series_id gre_phase) None), []).
Proof.
  assert (H1 : no_t1w_rule gre_phase = true) by reflexivity.
  assert (H2 : reaches_gre_fieldmap gre_phase = true) by reflexivity.
  assert (H3 : In (fmap_gre_mag the_static_keys)
                 (keys (initial_info the_static_keys)))
    by (vm_compute; tauto).
  assert (H4 : In (fmap_gre_phase the_static_keys)
                 (keys (initial_info the_static_keys)))
    by (vm_compute; tauto).
  split; [exact H1|]. split; [exact H2|].
  exact (gre_fieldmap_by_third_flag module_globals the_static_keys
           [gre_phase] 0 gre_phase (initial_info the_static_keys) []
           H1 H2 H3 H4).
Defined.

(** The keys of a spin-echo field map with and without a phase image
    differ. *)
Lemma se_keys_differ (run_dir : string) (kmag kpha : Key) :
  create_key "fmap"
    ("acq-fMRI_rec-magnitude_dir-" ++ run_dir ++ "_run-{item:02d}_epi")
  = OK kmag ->
  create_key "fmap"
    ("acq-fMRI_rec-phase_dir-" ++ run_dir ++ "_run-{item:02d}_epi")
  = OK kpha ->
  kmag <> kpha.
Proof.
  unfold create_key, create_key_full. cbn [PyStr.nonempty negb].
  intros H1 H2 E. injection H1 as <-. injection H2 as <-.
  apply (f_equal template) in E. cbn in E. discriminate E.
Qed.

(** X19. With [direction] bound, the spin-echo field-map step returns at
    every position, the last one included (it never reads beyond the list).
    When the next record is the phase image of the series, the series goes
    under the "rec-magnitude" key and the next record under the "rec-phase"
    key of the direction label ("normal" for an empty label); otherwise the
    series alone goes under the key without "rec-". *)
Theorem se_fieldmap_pairs (g : Globals) (K : StaticKeys)
    (seqinfo : list SeriesRecord) (idx : nat) (s : SeriesRecord)
    (info : Info) (run_numbers : RunNumbers) (d : string) :
  no_t1w_rule s = true ->
  reaches_se_fieldmap s = true ->
  direction g = Some d ->
  let run_dir := if PyStr.nonempty d then d else "normal" in
  exists info',
    classify_series g K seqinfo idx s (info, run_numbers)
    = OK (info', run_numbers)
    /\ match phase_partner seqinfo idx s with
       | Some next =>
           exists kmag kpha,
             create_key "fmap"
               ("acq-fMRI_rec-magnitude_dir-" ++ run_dir
                ++ "_run-{item:02d}_epi") = OK kmag
             /\ create_key "fmap"
                  ("acq-fMRI_rec-phase_dir-" ++ run_dir
                   ++ "_run-{item:02d}_epi") = OK kpha
             /\ registered info info' kmag (mkAssignment (series_id s) None)
             /\ registered info info' kpha
                  (mkAssignment (series_id next) None)
       | None =>
           exists mykey,
             create_key "fmap"
               ("acq-fMRI_dir-" ++ run_dir ++ "_run-{item:02d}_epi")
             = OK mykey
             /\ info' = dict_append info mykey
                          (mkAssignment (series_id s) None)
       end.
Proof.
  intros H1 H2 Hd run_dir. unfold classify_series.
  rewrite t1w_chain_no_rule by assumption. cbn [bind].
  rewrite t2w_chain_se_fieldmap by assumption.
  unfold se_fieldmap, direction_or_normal, phase_partner.
  rewrite Hd. cbn [global bind]. fold run_dir.
  destruct (create_key "fmap"
              ("acq-fMRI_dir-" ++ run_dir ++ "_run-{item:02d}_epi"))
    as [mykey|e] eqn:Es; [|discriminate Es].
  destruct (create_key "fmap"
              ("acq-fMRI_rec-magnitude_dir-" ++ run_dir
               ++ "_run-{item:02d}_epi"))
    as [kmag|e] eqn:Em; [|discriminate Em].
  destruct (create_key "fmap"
              ("acq-fMRI_rec-phase_dir-" ++ run_dir
               ++ "_run-{item:02d}_epi"))
    as [kpha|e] eqn:Ep; [|discriminate Ep].
  assert (Hsingle :
    exists info',
      (info' <- (mykey <- OK mykey ;; add_series (series_id s) mykey info) ;;
       OK (info', run_numbers)) = OK (info', run_numbers)
      /\ exists mykey0, OK mykey = OK mykey0
           /\ info' = dict_append info mykey0
                        (mkAssignment (series_id s) None)).
  { cbn [bind]. rewrite add_series_appends. cbn [bind].
    eexists. split; [reflexivity|]. eexists. split; reflexivity. }
  destruct (nth_error seqinfo (idx + 1)) as [next|]; [|exact Hsingle].
  destruct ((protocol_name next =? protocol_name s)
            && in_tuple "P" (image_type next)); [|exact Hsingle].
  cbn [bind]. rewrite add_series_appends. cbn [bind].
  rewrite add_series_appends. cbn [bind].
  eexists. split; [reflexivity|].
  exists kmag, kpha. split; [reflexivity|]. split; [reflexivity|].
  pose proof (se_keys_differ run_dir kmag kpha Em Ep) as N. split.
  - apply registered_then_other; [exact N|apply registered_dict_append].
  - unfold registered.
    rewrite <- (get_dict_append_other info kmag kpha
                  (mkAssignment (series_id s) None)) by congruence.
    apply registered_dict_append.
Qed.

Lemma se_fieldmap_pairs_witness :
  no_t1w_rule se_magnitude = true
  /\ reaches_se_fieldmap se_magnitude = true
  /\ direction bound_globals = Some ""
  /\ exists info',
       classify_series bound_globals the_static_keys
         [se_magnitude; se_phase] 0 se_magnitude
         (initial_info the_static_keys, [])
       = OK (info', [])
       /\ match phase_partner [se_magnitude; se_phase] 0 se_magnitude with
          | Some next =>
              exists kmag kpha,
                create_key "fmap"
                  ("acq-fMRI_rec-magnitude_dir-" ++ "normal"
                   ++ "_run-{item:02d}_epi") = OK kmag
                /\ create_key "fmap"
                     ("acq-fMRI_rec-phase_dir-" ++ "normal"
                      ++ "_run-{item:02d}_epi") = OK kpha
                /\ registered (initial_info the_static_keys) info' kmag
                     (mkAssignment (series_id se_magnitude) None)
                /\ registered (initial_info the_static_keys) info' kpha
                     (mkAssignment (series_id next) None)
          | None =>
              exists mykey,
                create_key "fmap"
                  ("acq-fMRI_dir-" ++ "normal" ++ "_run-{item:02d}_epi")
                = OK mykey
                /\ info' = dict_append (initial_info the_static_keys) mykey
                             (mkAssignment (series_id se_magnitude) None)
          end.
Proof.
  assert (H1 : no_t1w_rule se_magnitude = true) by reflexivity.
  assert (H2 : reaches_se_fieldmap se_magnitude = true) by reflexivity.
  assert (H3 : direction bound_globals = Some "") by reflexivity.
  split; [exact H1|]. split; [exact H2|]. split; [exact H3|].
  exact (se_fieldmap_pairs bound_globals the_static_keys
           [se_magnitude; se_phase] 0 se_magnitude
           (initial_info the_static_keys) [] "" H1 H2 H3).
Defined.

(* ================================================================== *)
(** ** Lemmas: when the whole pass returns *)

Lemma nodup_keys_dict_append (info : Info) (k : Key) (a : Assignment) :
  NoDup (keys info) -> NoDup (keys (dict_append info k a)).
Proof.
  intro Hn. unfold dict_append. destruct (iget info k) as [l|] eqn:E.
  - now rewrite (keys_setitem_present info k _ l E).
  - rewrite (setitem_absent Key_eq_dec info k _ E).
    unfold keys. rewrite map_app. cbn [map fst].
    apply (Permutation_NoDup (Permutation_cons_append (map fst info) k)).
    constructor; [|exact Hn].
    intro Hin. apply (in_keys_get Key_eq_dec) in Hin as [v Hv]. congruence.
Qed.

Lemma keeps_keys_dict_append (K : StaticKeys) (info : Info) (k : Key)
    (a : Assignment) :
  keeps_keys K info -> keeps_keys K (dict_append info k a).
Proof.
  intros [Hn Hk]. split.
  - now apply nodup_keys_dict_append.
  - intros k' H. apply in_keys_dict_append. now apply Hk.
Qed.

Lemma nodup_keys_setitem {V : Type} (d : dict Key V) (k : Key) (v : V) :
  NoDup (keys d) -> NoDup (keys (setitem Key_eq_dec d k v)).
Proof.
  intro Hn. destruct (get Key_eq_dec d k) as [l|] eqn:E.
  - now rewrite (keys_setitem_present d k _ l E).
  - rewrite (setitem_absent Key_eq_dec d k _ E).
    unfold keys. rewrite map_app. cbn [map fst].
    apply (Permutation_NoDup (Permutation_cons_append (map fst d) k)).
    constructor; [|exact Hn].
    intro Hin. apply (in_keys_get Key_eq_dec) in Hin as [v' Hv]. congruence.
Qed.

Lemma keeps_keys_initial (K : StaticKeys) : keeps_keys K (initial_info K).
Proof.
  split; [|auto]. unfold initial_info. cbn [fold_left].
  repeat apply nodup_keys_setitem. constructor.
Qed.

(** The run number just recorded for [task] is the one [next_run_number]
    gives. *)
Lemma get_next_run (run_numbers : RunNumbers) (task : string) :
  get string_dec (next_run run_numbers task) task
  = Some (next_run_number run_numbers task).
Proof.
  unfold next_run, next_run_number.
  destruct (get string_dec run_numbers task) as [n|];
    [destruct (n =? 0)%Z|]; apply get_setitem_same.
Qed.

Section Returns.
Variable g : Globals.
Variable seqinfo : list SeriesRecord.
Hypothesis Hg : binds_free_names g the_static_keys.

(** Every call that can raise is replaced by its result, and the appends
    that are left keep the keys. *)
Ltac returns_keeping Hk :=
  repeat first
    [ progress cbn [bind global]
    | rewrite add_series_appends
    | rewrite append_to_present
        by (repeat apply in_keys_dict_append;
            first [ assumption
                  | apply Hk; first [assumption | vm_compute; tauto] ]) ];
  eexists; split;
  [ reflexivity
  | repeat apply keeps_keys_dict_append; split; assumption ].

Lemma t1w_chain_keeps (idx : nat) (s : SeriesRecord) (info : Info) :
  keeps_keys the_static_keys info ->
  exists info',
    t1w_chain g the_static_keys seqinfo idx s info = OK info'
    /\ keeps_keys the_static_keys info'.
Proof.
  destruct Hg as ([d Hd] & [f Hf] & [p Hp] & [k1 [Hk1 Hin1]] & [k2 [Hk2 Hin2]]).
  intros [Hn Hk]. unfold t1w_chain, unnormalized_duplicate.
  rewrite Hd, Hf, Hk1.
  destruct (is_highres_t1w s).
  { destruct (negb (in_tuple "NORM" (image_type s))); cbn [global bind];
      [destruct (f seqinfo idx)|]; returns_keeping Hk. }
  destruct (is_inplane s); [returns_keeping Hk|].
  destruct (is_fse_t1w s); returns_keeping Hk.
Qed.

Lemma highres_t2w_keeps (idx : nat) (s : SeriesRecord) (info : Info) :
  keeps_keys the_static_keys info ->
  exists info',
    highres_t2w g the_static_keys seqinfo idx s info = OK info'
    /\ keeps_keys the_static_keys info'.
Proof.
  destruct Hg as ([d Hd] & [f Hf] & [p Hp] & [k1 [Hk1 Hin1]] & [k2 [Hk2 Hin2]]).
  intros [Hn Hk]. unfold highres_t2w, unnormalized_duplicate.
  rewrite Hd, Hf, Hk2.
  destruct (negb (in_tuple "NORM" (image_type s))); cbn [global bind];
    [destruct (f seqinfo idx)|]; returns_keeping Hk.
Qed.

Lemma se_fieldmap_keeps (idx : nat) (s : SeriesRecord) (info : Info) :
  keeps_keys the_static_keys info ->
  exists info',
    se_fieldmap g seqinfo idx s info = OK info'
    /\ keeps_keys the_static_keys info'.
Proof.
  destruct Hg as ([d Hd] & _).
  intros [Hn Hk]. unfold se_fieldmap, direction_or_normal.
  rewrite Hd. cbn [global bind].
  unfold create_key, create_key_full. cbn [PyStr.nonempty negb].
  destruct (nth_error seqinfo (idx + 1)) as [next|];
    [destruct ((protocol_name next =? protocol_name s)
               && in_tuple "P" (image_type next))|];
    returns_keeping Hk.
Qed.

Lemma gre_fieldmap_keeps (s : SeriesRecord) (info : Info) :
  (2 <? List.length (image_type s))%nat = true ->
  keeps_keys the_static_keys info ->
  exists info',
    gre_fieldmap the_static_keys s info = OK info'
    /\ keeps_keys the_static_keys info'.
Proof.
  intros Hlen [Hn Hk]. apply Nat.ltb_lt in Hlen.
  unfold gre_fieldmap, PyStr.index.
  destruct (nth_error (image_type s) 2) as [flag|] eqn:E.
  - cbn [bind]. destruct (flag =? "M"); [returns_keeping Hk|].
    destruct (flag =? "P"); returns_keeping Hk.
  - apply nth_error_None in E. lia.
Qed.

Lemma diffusion_keeps (idx : nat) (s : SeriesRecord) (info : Info) :
  nth_error seqinfo idx = Some s ->
  keeps_keys the_static_keys info ->
  exists info',
    diffusion g the_static_keys seqinfo idx s info = OK info'
    /\ keeps_keys the_static_keys info'.
Proof.
  destruct Hg as ([d Hd] & _ & [p Hp] & _).
  intros Hidx [Hn Hk].
  destruct (index_int_previous seqinfo idx s Hidx) as [prev Eprev].
  unfold diffusion, direction_or_normal. rewrite Hd, Hp, Eprev.
  cbn [global bind].
  unfold create_key, create_key_dicom, create_key_full.
  cbn [PyStr.nonempty negb].
  destruct (dim4 s >=? 5)%Z.
  - destruct (p seqinfo idx);
      [destruct (PyStr.contains "epse2d" (sequence_name prev))|];
      returns_keeping Hk.
  - destruct (p seqinfo idx); returns_keeping Hk.
Qed.

Lemma functional_keeps (s : SeriesRecord) (info : Info)
    (run_numbers : RunNumbers) (task : string) :
  extract_task_name (series_description s) = OK task ->
  keeps_keys the_static_keys info ->
  exists st',
    functional s (info, run_numbers) = OK st'
    /\ keeps_keys the_static_keys (fst st').
Proof.
  intros Ht [Hn Hk]. unfold functional, getitem.
  rewrite Ht. cbn [bind]. rewrite get_next_run. cbn [bind].
  unfold create_key, create_key_full. cbn [PyStr.nonempty negb bind].
  rewrite add_series_appends. cbn [bind].
  eexists. split; [reflexivity|]. cbn [fst].
  apply keeps_keys_dict_append. split; assumption.
Qed.

Lemma t2w_chain_keeps (idx : nat) (s : SeriesRecord) (info : Info)
    (run_numbers : RunNumbers) :
  readable s = true ->
  nth_error seqinfo idx = Some s ->
  keeps_keys the_static_keys info ->
  exists st',
    t2w_chain g the_static_keys seqinfo idx s (info, run_numbers) = OK st'
    /\ keeps_keys the_static_keys (fst st').
Proof.
  intros Hr Hidx Hinv. unfold readable in Hr.
  apply andb_true_iff in Hr as [Hgre Hfun].
  assert (Hkeep : forall m : result Info,
            (exists info', m = OK info' /\ keeps_keys the_static_keys info') ->
            exists st',
              (info' <- m ;; OK (info', run_numbers)) = OK st'
              /\ keeps_keys the_static_keys (fst st')).
  { intros m [info' [-> H]]. eexists. split; [reflexivity|exact H]. }
  assert (Hinv' := Hinv). destruct Hinv' as [Hn Hk].
  destruct Hg as (_ & _ & _ & _ & [k2 [Hk2 Hin2]]).
  unfold t2w_chain.
  destruct (is_scout s); [apply Hkeep; returns_keeping Hk|].
  destruct (is_highres_t2w s); [apply Hkeep; now apply highres_t2w_keeps|].
  destruct (is_haste s);
    [apply Hkeep; rewrite Hk2; returns_keeping Hk|].
  destruct (is_pd_bias s); [apply Hkeep; returns_keeping Hk|].
  destruct (is_inversion_recovery s); [apply Hkeep; returns_keeping Hk|].
  destruct (is_variable_fa s); [apply Hkeep; returns_keeping Hk|].
  destruct (is_functional s).
  { cbn [implb] in Hfun.
    destruct (extract_task_name (series_description s)) as [task|] eqn:Et;
      [|discriminate Hfun].
    now apply functional_keeps with (task := task). }
  destruct (is_se_fieldmap s); [apply Hkeep; now apply se_fieldmap_keeps|].
  destruct (is_gre_fieldmap s).
  { cbn [implb] in Hgre. apply Hkeep. now apply gre_fieldmap_keeps. }
  destruct (is_diffusion s); [apply Hkeep; now apply diffusion_keeps|].
  destruct (is_screen_save s); [apply Hkeep; returns_keeping Hk|].
  eexists. split; [reflexivity|exact Hinv].
Qed.

Lemma classify_series_keeps (idx : nat) (s : SeriesRecord)
    (st : Info * RunNumbers) :
  readable s = true ->
  nth_error seqinfo idx = Some s ->
  keeps_keys the_static_keys (fst st) ->
  exists st',
    classify_series g the_static_keys seqinfo idx s st = OK st'
    /\ keeps_keys the_static_keys (fst st').
Proof.
  intros Hr Hidx Hinv. destruct st as [info rn]. cbn [fst] in Hinv.
  unfold classify_series.
  destruct (t1w_chain_keeps idx s info Hinv) as [info1 [E H1]].
  rewrite E. cbn [bind]. now apply t2w_chain_keeps.
Qed.

Lemma classify_from_keeps (rest : list SeriesRecord) :
  forall pre st,
    seqinfo = (pre ++ rest)%list ->
    Forall (fun s => readable s = true) rest ->
    keeps_keys the_static_keys (fst st) ->
    exists st',
      classify_from g the_static_keys seqinfo (List.length pre) rest st
      = OK st'
      /\ keeps_keys the_static_keys (fst st').
Proof.
  induction rest as [|s rest IH]; intros pre st Hsplit Hr Hinv.
  - exists st. split; [reflexivity|exact Hinv].
  - apply Forall_cons_iff in Hr as [Hs Hrest].
    cbn [classify_from].
    assert (Hidx : nth_error seqinfo (List.length pre) = Some s).
    { rewrite Hsplit, nth_error_app2 by lia. now rewrite Nat.sub_diag. }
    destruct (classify_series_keeps (List.length pre) s st Hs Hidx Hinv)
      as [st1 [E H1]].
    rewrite E. cbn [bind].
    specialize (IH (pre ++ [s])%list st1).
    rewrite last_length in IH. apply IH; auto.
    rewrite Hsplit. now rewrite <- app_assoc.
Qed.

End Returns.

(* ================================================================== *)
(** ** Theorems: the whole pass *)



(* ================================================================== *)
(** ** Lemmas: whose series the pass assigns *)

Lemma from_input_dict_append (seqinfo : list SeriesRecord) (info : Info)
    (k : Key) (s : SeriesRecord) (acq : option string) :
  In s seqinfo ->
  from_input seqinfo info ->
  from_input seqinfo (dict_append info k (mkAssignment (series_id s) acq)).
Proof.
  intros Hs H k' l a Hl Ha.
  destruct (Key_eq_dec k' k) as [E|N].
  - subst k'.
    pose proof (registered_dict_append info k
                  (mkAssignment (series_id s) acq)) as R.
    unfold registered in R. rewrite R in Hl. injection Hl as <-.
    apply in_app_or in Ha as [Ha|[<-|[]]].
    + destruct (iget info k) as [l0|] eqn:E0; [|destruct Ha].
      exact (H k l0 a E0 Ha).
    + exists s. split; [assumption|reflexivity].
  - rewrite get_dict_append_other in Hl by assumption.
    exact (H k' l a Hl Ha).
Qed.

Lemma index_int_in {A : Type} (l : list A) (i : Z) (x : A) :
  index_int l i = OK x -> In x l.
Proof.
  unfold index_int, PyStr.index. intro H.
  repeat match type of H with
         | context [if ?b then _ else _] => destruct b
         | context [nth_error l ?n] =>
             let E := fresh "E" in
             destruct (nth_error l n) eqn:E;
             [injection H as <-; now apply nth_error_In in E|]
         | Raise _ = OK _ => discriminate H
         end.
Qed.

Lemma from_input_initial (seqinfo : list SeriesRecord) :
  from_input seqinfo (initial_info the_static_keys).
Proof.
  assert (H : forall k l,
            iget (initial_info the_static_keys) k = Some l -> l = []).
  { assert (F : Forall (fun kv => snd kv = [])
                  (initial_info the_static_keys))
      by (vm_compute; repeat constructor).
    revert F. generalize (initial_info the_static_keys).
    induction 1 as [|[k0 v0] r Hv Hr IH]; intros k l; simpl;
      [discriminate|].
    destruct (Key_eq_dec k k0); [|apply IH].
    intro E. injection E as <-. exact Hv. }
  intros k l a Hl Ha. apply H in Hl. subst l. destruct Ha.
Qed.

Section Assigns.
Variable g : Globals.
Variable K : StaticKeys.
Variable seqinfo : list SeriesRecord.

(** After [split_branch], every append names the record, the one before it
    or the one after it. *)
Ltac appends_from_input :=
  repeat (apply from_input_dict_append;
          [ first [ assumption
                  | match goal with
                    | E : index_int _ _ = OK ?p |- In ?p _ =>
                        exact (index_int_in _ _ _ E)
                    | E : nth_error _ _ = Some ?p |- In ?p _ =>
                        exact (nth_error_In _ _ E)
                    end ]
          | ]);
  assumption.

Lemma t1w_chain_from_input (idx : nat) (s : SeriesRecord)
    (info info' : Info) :
  t1w_chain g K seqinfo idx s info = OK info' ->
  In s seqinfo -> from_input seqinfo info -> from_input seqinfo info'.
Proof.
  unfold t1w_chain, unnormalized_duplicate. intros H Hs Hi.
  split_branch H; injection H as <-; appends_from_input.
Qed.

Lemma highres_t2w_from_input (idx : nat) (s : SeriesRecord)
    (info info' : Info) :
  highres_t2w g K seqinfo idx s info = OK info' ->
  In s seqinfo -> from_input seqinfo info -> from_input seqinfo info'.
Proof.
  unfold highres_t2w, unnormalized_duplicate. intros H Hs Hi.
  split_branch H; injection H as <-; appends_from_input.
Qed.

Lemma gre_fieldmap_from_input (s : SeriesRecord) (info info' : Info) :
  gre_fieldmap K s info = OK info' ->
  In s seqinfo -> from_input seqinfo info -> from_input seqinfo info'.
Proof.
  unfold gre_fieldmap. intros H Hs Hi.
  split_branch H; injection H as <-; appends_from_input.
Qed.

Lemma se_fieldmap_from_input (idx : nat) (s : SeriesRecord)
    (info info' : Info) :
  se_fieldmap g seqinfo idx s info = OK info' ->
  In s seqinfo -> from_input seqinfo info -> from_input seqinfo info'.
Proof.
  unfold se_fieldmap, direction_or_normal. intros H Hs Hi.
  destruct (nth_error seqinfo (idx + 1)) as [next|] eqn:En;
    split_branch H; injection H as <-; appends_from_input.
Qed.

Lemma diffusion_from_input (idx : nat) (s : SeriesRecord)
    (info info' : Info) :
  diffusion g K seqinfo idx s info = OK info' ->
  In s seqinfo -> from_input seqinfo info -> from_input seqinfo info'.
Proof.
  unfold diffusion, direction_or_normal. intros H Hs Hi.
  split_branch H; injection H as <-; appends_from_input.
Qed.

Lemma functional_from_input (s : SeriesRecord) (info info' : Info)
    (rn rn' : RunNumbers) :
  functional s (info, rn) = OK (info', rn') ->
  In s seqinfo -> from_input seqinfo info -> from_input seqinfo info'.
Proof.
  unfold functional. intros H Hs Hi.
  destruct (extract_task_name (series_description s)); [|discriminate H].
  cbn [bind] in H.
  destruct (getitem string_dec _ _); [|discriminate H].
  cbn [bind] in H.
  split_branch H; injection H as <- _; appends_from_input.
Qed.

Lemma t2w_chain_from_input (idx : nat) (s : SeriesRecord)
    (info info' : Info) (rn rn' : RunNumbers) :
  t2w_chain g K seqinfo idx s (info, rn) = OK (info', rn') ->
  In s seqinfo -> from_input seqinfo info -> from_input seqinfo info'.
Proof.
  unfold t2w_chain. intros H Hs Hi.
  repeat match type of H with
         | (if ?b then _ else _) = _ => destruct b
         end;
    try (injection H as <- _; assumption);
    try (apply functional_from_input in H; assumption);
    match type of H with
    | context [highres_t2w ?g ?K ?l ?i ?s ?info] =>
        destruct (highres_t2w g K l i s info) eqn:E;
        [apply highres_t2w_from_input in E; [|assumption..]
        | discriminate H]
    | context [se_fieldmap ?g ?l ?i ?s ?info] =>
        destruct (se_fieldmap g l i s info) eqn:E;
        [apply se_fieldmap_from_input in E; [|assumption..]
        | discriminate H]
    | context [gre_fieldmap ?K ?s ?info] =>
        destruct (gre_fieldmap K s info) eqn:E;
        [apply gre_fieldmap_from_input in E; [|assumption..]
        | discriminate H]
    | context [diffusion ?g ?K ?l ?i ?s ?info] =>
        destruct (diffusion g K l i s info) eqn:E;
        [apply diffusion_from_input in E; [|assumption..]
        | discriminate H]
    | _ => idtac
    end;
    try (cbn [bind] in H; injection H as <- _; assumption);
    split_branch H; injection H as <- _; appends_from_input.
Qed.

Lemma classify_from_from_input (rest : list SeriesRecord) :
  forall idx st st',
    classify_from g K seqinfo idx rest st = OK st' ->
    (forall s, In s rest -> In s seqinfo) ->
    from_input seqinfo (fst st) -> from_input seqinfo (fst st').
Proof.
  induction rest as [|s rest IH]; intros idx st st' H Hin Hi.
  - simpl in H. now injection H as <-.
  - cbn [classify_from] in H.
    destruct (classify_series g K seqinfo idx s st) as [st1|] eqn:E;
      [|discriminate H].
    cbn [bind] in H. apply (IH (S idx) st1 st' H).
    + intros x Hx. apply Hin. now right.
    + destruct st as [info rn]. destruct st1 as [info1 rn1].
      unfold classify_series in E.
      destruct (t1w_chain g K seqinfo idx s info) as [info0|] eqn:E1;
        [|discriminate E].
      cbn [bind] in E. cbn [fst] in *.
      assert (Hs : In s seqinfo) by (apply Hin; now left).
      apply t2w_chain_from_input in E; auto.
      now apply t1w_chain_from_input in E1.
Qed.

End Assigns.

(** X21. [infotodict] invents no series: in every environment, every
    assignment of the map it returns carries the series id of a record of
    the input. *)
Theorem infotodict_assigns_input_series (g : Globals)
    (seqinfo : list SeriesRecord) (info : Info) :
  infotodict g seqinfo = OK info ->
  from_input seqinfo info.
Proof.
  unfold infotodict. rewrite static_keys_returns. cbn [bind]. cbv zeta.
  intro H.
  match type of H with
  | context [classify_from ?a ?b ?c ?d ?e ?f] =>
      destruct (classify_from a b c d e f) as [[info1 rn1]|] eqn:E;
      [|discriminate H]
  end.
  cbn [bind] in H.
  apply classify_from_from_input in E;
    [|auto|apply from_input_initial]. cbn [fst] in E.
  unfold clean_up_unneeded_tags_from_info in H.
  apply (clean_up_loop_from_map info1) in H; [|auto|].
  - intros k l a Hl Ha.
    destruct (H k l Hl) as [_ [k0 Hk0]].
    destruct (E k0 l a Hk0 Ha) as [s [Hs Hitem]].
    exists s. split; [now apply sort_incl|exact Hitem].
  - intros k' v Hv. split; [|eauto].
    exists k'. split; [|now left].
    apply (in_keys_get Key_eq_dec). eauto.
Qed.

Lemma infotodict_assigns_input_series_witness :
  infotodict dicom_globals session = OK session_info
  /\ from_input session session_info.
Proof.
  assert (H : infotodict dicom_globals session = OK session_info)
    by (vm_compute; reflexivity).
  split; [exact H|].
  exact (infotodict_assigns_input_series dicom_globals session
           session_info H).
Defined.

(* ================================================================== *)
(** ** Lemmas: when the sort repeats no record *)

Lemma nodup_insert_sorted (x : string) (l : list string) :
  ~ In x l -> NoDup l -> NoDup (insert_sorted x l).
Proof.
  induction l as [|y l IH]; intros Hx Hn; simpl.
  - constructor; [intros []|constructor].
  - destruct (String.leb x y); [now constructor|].
    inversion Hn as [|? ? Hy Hn']; subst. constructor.
    + rewrite in_insert_sorted. intros [E|H]; [|contradiction].
      apply Hx. now left.
    + apply IH; [|assumption]. intro H. apply Hx. now right.
Qed.

Lemma nodup_sorted (l : list string) : NoDup l -> NoDup (sorted l).
Proof.
  induction 1 as [|x l Hx Hn IH]; simpl; [constructor|].
  apply nodup_insert_sorted; [|assumption]. now rewrite in_sorted.
Qed.

Lemma nodup_append_if_absent (l : list SeriesRecord) :
  forall acc, NoDup acc -> NoDup (fold_left append_if_absent l acc).
Proof.
  apply fold_left_preserves. intros a b _ Ha. unfold append_if_absent.
  destruct (in_dec SeriesRecord_eq_dec b a) as [Hin|Hnin]; [assumption|].
  apply (Permutation_NoDup (Permutation_cons_append a b)).
  now constructor.
Qed.

Lemma nodup_app_disjoint {A : Type} (a b : list A) :
  NoDup a -> NoDup b -> (forall x, In x a -> ~ In x b) -> NoDup (a ++ b).
Proof.
  induction a as [|x a IH]; intros Ha Hb Hd; simpl; [assumption|].
  inversion Ha as [|? ? Hx Ha']; subst. constructor.
  - intro H. apply in_app_or in H as [H|H]; [contradiction|].
    apply (Hd x); [now left|assumption].
  - apply IH; auto. intros y Hy. apply Hd. now right.
Qed.

(** The loop over the sorted UIDs repeats no record when the UIDs are
    distinct. *)
Lemma nodup_append_by_uid (dTseries : list SeriesRecord)
    (sids : list string) :
  NoDup dTseries ->
  forall acc,
    NoDup sids ->
    NoDup acc ->
    (forall x sid, In x acc -> In x dTseries -> In sid sids ->
                   uid_is sid x = false) ->
    NoDup (fold_left (append_by_uid dTseries) sids acc).
Proof.
  intro Hd. induction sids as [|sid sids IH]; intros acc Hs Ha Hinv; simpl;
    [assumption|].
  inversion Hs as [|? ? Hsid Hs']; subst. apply IH; auto.
  - unfold append_by_uid. apply nodup_app_disjoint; auto.
    + now apply NoDup_filter.
    + intros x Hx Hf. apply filter_In in Hf as [Hin Hu].
      rewrite (Hinv x sid Hx Hin) in Hu; [discriminate|now left].
  - intros x sid' Hx Hin Hsid'. unfold append_by_uid in Hx.
    apply in_app_or in Hx as [Hx|Hx].
    + apply Hinv; auto. now right.
    + apply filter_In in Hx as [_ Hu]. unfold uid_is in *.
      destruct (series_uid x) as [u|]; [|reflexivity].
      apply String.eqb_eq in Hu. subst u.
      apply String.eqb_neq. intro E. subst sid'. contradiction.
Qed.

Lemma nodup_append_date_time (seqinfo acc : list SeriesRecord)
    (dt : string) :
  NoDup seqinfo ->
  NoDup (uids_of (series_at seqinfo dt)) ->
  NoDup acc ->
  (forall x, In x acc -> has_date_time x = true /\ date_time x <> dt) ->
  NoDup (append_date_time seqinfo acc dt).
Proof.
  intros Hn Hu Ha Hacc. unfold append_date_time.
  apply nodup_append_if_absent. apply nodup_append_by_uid; auto.
  - unfold series_at. now apply NoDup_filter.
  - now apply nodup_sorted.
  - intros x sid Hx Hin _. apply in_series_at in Hin as [_ [_ E]].
    destruct (Hacc x Hx) as [_ N]. contradiction.
Qed.

Lemma nodup_fold_append_date_time (seqinfo : list SeriesRecord)
    (dts : list string) :
  NoDup seqinfo ->
  (forall dt, NoDup (uids_of (series_at seqinfo dt))) ->
  forall acc,
    NoDup dts ->
    NoDup acc ->
    (forall x, In x acc -> has_date_time x = true /\ ~ In (date_time x) dts) ->
    NoDup (fold_left (append_date_time seqinfo) dts acc).
Proof.
  intros Hn Hu. induction dts as [|dt dts IH]; intros acc Hd Ha Hacc; simpl;
    [assumption|].
  inversion Hd as [|? ? Hdt Hd']; subst. apply IH; auto.
  - apply nodup_append_date_time; auto.
    intros x Hx. destruct (Hacc x Hx) as [H1 H2]. split; [assumption|].
    intro E. apply H2. now left.
  - intros x Hx.
    destruct (append_date_time_block seqinfo acc dt) as [block [E Hb]].
    rewrite E in Hx. apply in_app_or in Hx as [Hx|Hx].
    + destruct (Hacc x Hx) as [H1 H2]. split; [assumption|].
      intro H. apply H2. now right.
    + apply Hb in Hx as [_ [H1 H2]]. split; [assumption|].
      now rewrite H2.
Qed.

(** With distinct UIDs at each date and time, the output repeats no record
    the input does not repeat. *)
Lemma nodup_sort (seqinfo : list SeriesRecord) :
  NoDup seqinfo ->
  distinct_uids seqinfo ->
  NoDup (sort_seqinfo_by_series_date_time seqinfo).
Proof.
  intros Hn Hu. unfold sort_seqinfo_by_series_date_time.
  apply nodup_append_if_absent. unfold timed_part.
  apply nodup_fold_append_date_time;
    [ assumption
    | assumption
    | unfold sorted_set; apply nodup_sorted; apply NoDup_nodup
    | constructor
    | intros x [] ].
Qed.

(* ================================================================== *)
(** ** Theorems: sort_seqinfo_by_series_date_time without repeats *)

(** X22. On an input without repeated records in which no series UID occurs
    twice among the records of one date and time, the output is a
    rearrangement of the input: every record occurs exactly once. *)
Theorem sort_permutes (seqinfo : list SeriesRecord) :
  NoDup seqinfo ->
  distinct_uids seqinfo ->
  Permutation seqinfo (sort_seqinfo_by_series_date_time seqinfo).
Proof.
  intros Hn Hu. apply NoDup_Permutation; [assumption| |].
  - now apply nodup_sort.
  - intro x. split; [apply sort_keeps|apply sort_incl].
Qed.

Lemma sort_permutes_witness :
  NoDup [later_uid; shared_uid_a; undated; timed]
  /\ distinct_uids [later_uid; shared_uid_a; undated; timed]
  /\ Permutation [later_uid; shared_uid_a; undated; timed]
       (sort_seqinfo_by_series_date_time
          [later_uid; shared_uid_a; undated; timed]).
Proof.
  assert (H1 : NoDup [later_uid; shared_uid_a; undated; timed]).
  { repeat constructor; simpl; intuition discriminate. }
  assert (H2 : distinct_uids [later_uid; shared_uid_a; undated; timed]).
  { intro dt. unfold series_at. cbn.
    repeat match goal with
           | |- context [if ?b then _ else _] => destruct b; cbn
           end;
      repeat constructor; simpl; intuition discriminate. }
  split; [exact H1|]. split; [exact H2|].
  exact (sort_permutes [later_uid; shared_uid_a; undated; timed] H1 H2).
Defined.

(* ================================================================== *)
(** ** Lemmas: the order of the input *)

Lemma string_leb_antisym (a b : string) :
  (a <=? b) = true -> (b <=? a) = true -> a = b.
Proof.
  unfold String.leb. intros H1 H2.
  pose proof (String.compare_antisym a b) as E.
  destruct (a ?= b) eqn:Eab; destruct (b ?= a) eqn:Eba; simpl in E;
    try discriminate.
  now apply String.compare_eq_iff.
Qed.

Lemma nodup_map_injective {A B : Type} (f : A -> B) (l : list A) (x y : A) :
  NoDup (map f l) -> In x l -> In y l -> f x = f y -> x = y.
Proof.
  induction l as [|z l IH]; simpl; intros Hn Hx Hy E; [destruct Hx|].
  inversion Hn as [|? ? Hz Hn']; subst.
  destruct Hx as [Hx|Hx]; destruct Hy as [Hy|Hy]; subst; auto.
  - exfalso. apply Hz. rewrite E. now apply in_map.
  - exfalso. apply Hz. rewrite <- E. now apply in_map.
Qed.

(** Two rearrangements of one list that are both sorted by an order that is
    antisymmetric on the list are the same list. *)
Lemma sorted_permutation_unique {A : Type} (R : A -> A -> Prop)
    (a : list A) :
  forall b,
    StronglySorted R a -> StronglySorted R b -> Permutation a b ->
    (forall x y, In x a -> In y a -> R x y -> R y x -> x = y) ->
    a = b.
Proof.
  induction a as [|x a IH]; intros b Ha Hb Hp Hanti.
  - apply Permutation_nil in Hp. now subst.
  - destruct b as [|y b];
      [apply Permutation_sym, Permutation_nil in Hp; discriminate Hp|].
    apply StronglySorted_inv in Ha as [Ha Hxa].
    apply StronglySorted_inv in Hb as [Hb Hyb].
    rewrite Forall_forall in Hxa, Hyb.
    assert (E : x = y).
    { assert (Hx : In x (y :: b))
        by (apply (Permutation_in _ Hp); now left).
      assert (Hy : In y (x :: a))
        by (apply (Permutation_in _ (Permutation_sym Hp)); now left).
      destruct Hx as [Hx|Hx]; [now subst|].
      destruct Hy as [Hy|Hy]; [now subst|].
      apply Hanti; [now left|now right|now apply Hxa|now apply Hyb]. }
    subst y. f_equal. apply IH; auto.
    + now apply Permutation_cons_inv in Hp.
    + intros u v Hu Hv. apply Hanti; now right.
Qed.

(** Records with pairwise different dates and times have, at each date and
    time, at most one UID. *)
Lemma distinct_date_times_uids (seqinfo : list SeriesRecord) :
  NoDup (map date_time seqinfo) -> distinct_uids seqinfo.
Proof.
  intros Hn dt.
  assert (H : series_at seqinfo dt = []
              \/ exists s, series_at seqinfo dt = [s]).
  { unfold series_at. induction seqinfo as [|x l IH]; simpl; [now left|].
    inversion Hn as [|? ? Hx Hn']; subst.
    destruct (has_date_time x && (date_time x =? dt)) eqn:E.
    - right. exists x. f_equal.
      apply andb_true_iff in E as [_ E]. apply String.eqb_eq in E.
      destruct (IH Hn') as [Hnil|[s Hs]]; [assumption|].
      exfalso. apply Hx.
      assert (Hin : In s (filter
                (fun ss => has_date_time ss && (date_time ss =? dt)) l))
        by (rewrite Hs; now left).
      apply filter_In in Hin as [Hin Hc].
      apply andb_true_iff in Hc as [_ Hc]. apply String.eqb_eq in Hc.
      rewrite E, <- Hc. now apply in_map.
    - now apply IH. }
  destruct H as [->|[s ->]]; simpl; [constructor|].
  destruct (series_uid s) as [u|]; [|constructor].
  destruct (PyStr.nonempty u); repeat constructor. intros [].
Qed.

(** Where every record has a date and a time, the first loop places them
    all and the trailing loop adds nothing. *)
Lemma sort_all_timed (seqinfo : list SeriesRecord) :
  all_timed seqinfo ->
  sort_seqinfo_by_series_date_time seqinfo = timed_part seqinfo.
Proof.
  intro Ht. destruct (sort_splits seqinfo) as [rest [E Hrest]].
  rewrite E. destruct rest as [|r rest]; [apply app_nil_r|].
  exfalso. inversion Hrest as [|? ? Hr _]; subst.
  assert (Hin : In r (sort_seqinfo_by_series_date_time seqinfo)).
  { rewrite E. apply in_or_app. right. now left. }
  apply sort_incl in Hin. unfold all_timed in Ht.
  rewrite Forall_forall in Ht. specialize (Ht r Hin). congruence.
Qed.

(* ================================================================== *)
(** ** Theorems: sort_seqinfo_by_series_date_time and the input order *)

(** X23. Where every record has a date and a time and no two records have
    the same date and time, the output does not depend on the order of the
    input: two inputs that hold the same records give the same list, and
    with it the same result of [infotodict], in every environment. *)
Theorem sort_ignores_input_order (seqinfo seqinfo' : list SeriesRecord) :
  all_timed seqinfo ->
  NoDup (map date_time seqinfo) ->
  Permutation seqinfo seqinfo' ->
  sort_seqinfo_by_series_date_time seqinfo
  = sort_seqinfo_by_series_date_time seqinfo'
  /\ forall g, infotodict g seqinfo = infotodict g seqinfo'.
Proof.
  intros Ht Hn Hp.
  assert (E : sort_seqinfo_by_series_date_time seqinfo
              = sort_seqinfo_by_series_date_time seqinfo');
    [|split; [exact E|intro g; unfold infotodict; now rewrite E]].
  assert (Ht' : all_timed seqinfo').
  { unfold all_timed in *. rewrite Forall_forall in *. intros x Hx.
    apply Ht. now apply (Permutation_in _ (Permutation_sym Hp)). }
  assert (Hn' : NoDup (map date_time seqinfo')).
  { apply (Permutation_NoDup (Permutation_map date_time Hp) Hn). }
  assert (P : forall l, NoDup (map date_time l) ->
                Permutation l (sort_seqinfo_by_series_date_time l)).
  { intros l Hl. apply NoDup_Permutation.
    - now apply NoDup_map_inv in Hl.
    - apply nodup_sort; [now apply NoDup_map_inv in Hl|].
      now apply distinct_date_times_uids.
    - intro x. split; [apply sort_keeps|apply sort_incl]. }
  apply (sorted_permutation_unique not_later).
  - rewrite sort_all_timed by assumption. apply timed_part_sorted.
  - rewrite sort_all_timed by assumption. apply timed_part_sorted.
  - apply Permutation_trans with seqinfo;
      [apply Permutation_sym; now apply P|].
    apply Permutation_trans with seqinfo'; [assumption|now apply P].
  - intros x y Hx Hy Hxy Hyx. apply sort_incl in Hx. apply sort_incl in Hy.
    apply (nodup_map_injective date_time seqinfo); auto.
    now apply string_leb_antisym.
Qed.

Lemma sort_ignores_input_order_witness :
  all_timed [later_slot; timed]
  /\ NoDup (map date_time [later_slot; timed])
  /\ Permutation [later_slot; timed] [timed; later_slot]
  /\ sort_seqinfo_by_series_date_time [later_slot; timed]
     = sort_seqinfo_by_series_date_time [timed; later_slot]
  /\ forall g, infotodict g [later_slot; timed]
               = infotodict g [timed; later_slot].
Proof.
  assert (H1 : all_timed [later_slot; timed])
    by (repeat constructor).
  assert (H2 : NoDup (map date_time [later_slot; timed])).
  { repeat constructor; simpl; intuition discriminate. }
  assert (H3 : Permutation [later_slot; timed] [timed; later_slot])
    by apply perm_swap.
  split; [exact H1|]. split; [exact H2|]. split; [exact H3|].
  exact (sort_ignores_input_order [later_slot; timed] [timed; later_slot]
           H1 H2 H3).
Defined.
